(** * goma-http-provider: the configuration resolution and cache engine

    A shallow embedding of [provider.HTTPProvider] (index build and reload,
    resolver, authentication, bundle loader, checksum, cache key) and of
    [config.Config.validate], with the properties of the engine stated and
    proved over it.

    Go maps are [gmap]s.  The order in which a Go [range] statement visits a
    map is left open by the language, so every function whose result can
    depend on it takes the visiting order as an argument. *)

From Stdlib Require Import String Ascii ZArith.
From stdpp Require Import gmap strings list fin_maps.

Local Open Scope string_scope.
Set Warnings "-register-all,-clear-no-such-hyp".

(* ===================================================================== *)
(** * Strings: the pieces of [strings] and [path/filepath] that are used  *)
(* ===================================================================== *)

Module Str.

(** [strings.ToLower], on the ASCII letters. *)
Definition lower_ascii (c : ascii) : ascii :=
  let n := nat_of_ascii c in
  if (65 <=? n)%nat && (n <=? 90)%nat then ascii_of_nat (n + 32) else c.

Fixpoint ToLower (s : string) : string :=
  match s with
  | EmptyString => EmptyString
  | String c r => String (lower_ascii c) (ToLower r)
  end.

(** [strings.Join(elems, sep)]. *)
Fixpoint Join (elems : list string) (sep : string) : string :=
  match elems with
  | [] => ""
  | [x] => x
  | x :: rest => x +:+ sep +:+ Join rest sep
  end.

(** [filepath.Ext]: the suffix that begins at the last dot of the last
    path element; scanning goes from the end and stops at a separator. *)
Fixpoint ext_scan (rev_path : list ascii) (suffix : list ascii) : list ascii :=
  match rev_path with
  | [] => []
  | c :: before =>
      if Ascii.eqb c "/" then []
      else if Ascii.eqb c "." then c :: suffix
      else ext_scan before (c :: suffix)
  end.

Definition Ext (path : string) : string :=
  string_of_list_ascii (ext_scan (rev (list_ascii_of_string path)) []).

(** [filepath.Join(dir, name)] for an entry name of a directory. *)
Definition PathJoin (dir name : string) : string := dir +:+ "/" +:+ name.

(** [strings.HasPrefix(s, prefix)]. *)
Fixpoint HasPrefix (s prefix : string) : bool :=
  match prefix with
  | EmptyString => true
  | String c prefix' =>
      match s with
      | EmptyString => false
      | String d s' => Ascii.eqb d c && HasPrefix s' prefix'
      end
  end.

(** [s[n:]]. *)
Fixpoint from (n : nat) (s : string) : string :=
  match n, s with
  | S n', String _ s' => from n' s'
  | _, _ => s
  end.

(** [strings.TrimPrefix(s, prefix)]. *)
Definition TrimPrefix (s prefix : string) : string :=
  if HasPrefix s prefix then from (String.length prefix) s else s.

(** Whether the byte [c] occurs in [s]. *)
Fixpoint contains (c : ascii) (s : string) : bool :=
  match s with
  | EmptyString => false
  | String d s' => Ascii.eqb d c || contains c s'
  end.

End Str.

(* ===================================================================== *)
(** * Ranging over a Go map                                               *)
(* ===================================================================== *)

(** One way a [range] statement may visit a map: some sequence of its
    entries.  [fair] says that each entry is visited exactly once. *)
Definition Visit : Type := gmap string string → list (string * string).

Definition fair (ρ : Visit) : Prop := ∀ m, ρ m ≡ₚ map_to_list m.

(** The order in which stdpp lists a map, and that order reversed: two fair
    visiting orders. *)
Definition visit_listed : Visit := map_to_list.
Definition visit_reversed : Visit := λ m, rev (map_to_list m).

(** [m[k]] on a [map[string]string]: the zero value when the key is absent. *)
Definition index (m : gmap string string) (k : string) : string :=
  default "" (m !! k).

(** [for k, v := range src { dst[k] = v }], visiting [src] as [visit]. *)
Definition assign_all (visit : list (string * string)) (dst : gmap string string)
  : gmap string string :=
  fold_left (λ acc kv, <[kv.1 := kv.2]> acc) visit dst.

(* ===================================================================== *)
(** * BuildCacheKey                                                        *)
(* ===================================================================== *)

(** [HTTPProvider.BuildCacheKey]; [ρ] is the order in which the [range] over
    [metadata] runs. *)
Definition BuildCacheKey (ρ : Visit) (metadata : gmap string string) : string :=
  if decide (size metadata = 0) then "default"
  else
    let keys := map (λ kv : string * string, kv.1 +:+ "=" +:+ kv.2) (ρ metadata) in
    Str.ToLower (Str.Join keys "&").

(* ===================================================================== *)
(** * Results and errors                                                   *)
(* ===================================================================== *)

Inductive result (E A : Type) : Type :=
| Ok (a : A)
| Err (e : E).
Arguments Ok {E A} a.
Arguments Err {E A} e.

Definition is_err {E A} (r : result E A) : bool :=
  match r with Ok _ => false | Err _ => true end.

(** What the operating system answers when a path cannot be used. *)
Inductive errno : Type := ENOENT | EACCES | EIO.

(** The errors of [loadConfigFromDirectory]. *)
Inductive LoadError : Type :=
| WalkFailed (e : errno)                     (* the error handed to the callback *)
| ReadFailed (path : string) (e : errno)     (* "failed to read %s: %w" *)
| ParseJSONFailed (path : string)            (* "failed to parse JSON %s: %w" *)
| ParseYAMLFailed (path : string).           (* "failed to parse YAML %s: %w" *)

(** The errors of the provider. *)
Inductive Error : Type :=
| ErrIDRequired                              (* "configuration id is required" *)
| ErrDuplicateID (id : string)               (* "duplicate configuration id: %s" *)
| ErrLoadConfig (id : string) (cause : LoadError) (* "failed to load config %s: %w" *)
| ErrNoMatch                                 (* "no configuration matched metadata" *)
| ErrNotLoaded (id : string)                 (* "config %s not loaded" *)
| ErrAuthFailed (id : string)                (* "authentication failed for config %s" *)
| ErrInitialize (cause : Error).             (* "failed to initialize provider: %w" *)

(** The errors of [Config.validate]. *)
Inductive ValidateError : Type :=
| NoConfigurations                           (* "at least one configuration is required" *)
| DirectoryRequired (i : nat)                (* "configuration[%d]: directory is required" *)
| DirectoryMissing (i : nat) (dir : string)  (* "...: directory does not exist: %s" *)
| BasicAuthIncomplete                        (* "error, basic auth, username or password missing" *)
| MultipleDefault.                           (* "only one configuration can be marked as default" *)

(* ===================================================================== *)
(** * The file system seen by [filepath.Walk]                             *)
(* ===================================================================== *)

(** What is found at a path: nothing usable ([os.Lstat] fails), a file
    (with its content, or the error of [os.ReadFile]), or a directory (with
    its entries sorted by name, or the error of reading it). *)
Inductive fstree : Type :=
| Unreachable (e : errno)
| File (content : result errno string)
| Dir (listing : result errno (list (string * fstree))).

(** What the walk callback is told about one path. *)
Inductive event : Type :=
| Failed (e : errno)                         (* err != nil *)
| IsDir                                      (* info.IsDir() *)
| Regular (content : result errno string).   (* any other entry *)

(** The calls [filepath.Walk] makes when no callback stops it: the root,
    then, for a readable directory, its entries in order, each followed by
    what is below it. *)
Fixpoint walk (path : string) (t : fstree) : list (string * event) :=
  match t with
  | Unreachable e => [(path, Failed e)]
  | File content => [(path, Regular content)]
  | Dir (Err e) => [(path, Failed e)]
  | Dir (Ok entries) =>
      (path, IsDir) ::
      flat_map (λ entry, walk (Str.PathJoin path entry.1) entry.2) entries
  end.

(* ===================================================================== *)
(** * The engine                                                          *)
(* ===================================================================== *)

Section Engine.

(** The payload is opaque to the engine. *)
Context {Route Middleware : Type}.

(* ------------------------------------------------------------------- *)
(** ** Data model ([config] package)                                    *)
(* ------------------------------------------------------------------- *)

Record BasicAuth : Type := mkBasicAuth {
  Username : string;
  Password : string;
}.

Record HTTPAuth : Type := mkHTTPAuth {
  APIKey : string;
  BasicAuthOf : option BasicAuth;          (* BasicAuth *BasicAuth *)
}.

Record Configuration : Type := mkConfiguration {
  ID : string;
  Directory : string;
  Auth : option HTTPAuth;                  (* Auth *HTTPAuth *)
  Default : bool;
  Metadata : gmap string string;
}.

Record ConfigBundle : Type := mkConfigBundle {
  Version : string;
  Routes : list Route;
  Middlewares : list Middleware;
  BundleMetadata : gmap string string;     (* Metadata *)
  Checksum : string;
  Timestamp : Z;
}.

(** [provider.CachedConfig]. *)
Record CachedConfig : Type := mkCachedConfig {
  Bundle : ConfigBundle;
  ExpiresAt : Z;
  ETag : string;
}.

(** [provider.HTTPProvider], without its HTTP client and its locks. *)
Record HTTPProvider : Type := mkHTTPProvider {
  config : list Configuration;             (* config.Configurations *)
  cache : gmap string CachedConfig;
  defaultID : string;
  lastReload : Z;
  startTime : Z;
  metadata : gmap string string;
}.

Definition with_ID (id : string) (c : Configuration) : Configuration :=
  mkConfiguration id (Directory c) (Auth c) (Default c) (Metadata c).

Definition with_cache (m : gmap string CachedConfig) (p : HTTPProvider) : HTTPProvider :=
  mkHTTPProvider (config p) m (defaultID p) (lastReload p) (startTime p) (metadata p).

Definition with_lastReload (t : Z) (p : HTTPProvider) : HTTPProvider :=
  mkHTTPProvider (config p) (cache p) (defaultID p) t (startTime p) (metadata p).

(* ------------------------------------------------------------------- *)
(** ** The libraries the engine calls                                   *)
(* ------------------------------------------------------------------- *)

(** [json.Unmarshal] and [yaml.Unmarshal] into a zero [ConfigBundle]
    ([None] when the document is refused), [json.Marshal] (its error is
    dropped by the caller), [sha256.Sum256] and [hex.EncodeToString]. *)
Class Libraries : Type := {
  json_Unmarshal : string → option ConfigBundle;
  yaml_Unmarshal : string → option ConfigBundle;
  json_Marshal : ConfigBundle → string;
  Sum256 : string → string;
  EncodeToString : string → string;
}.

Context {libraries : Libraries}.

(** The surroundings of one run of [initialize]: the file system, the
    clock ([now n] is the [n]-th reading of [time.Now()] in the run) and,
    for the source at each position, the order in which [BuildCacheKey]
    ranges over its metadata. *)
Record Env : Type := mkEnv {
  fs : string → fstree;
  now : nat → Z;
  order : nat → Visit;
}.

Definition five_minutes : Z := 300000000000.

(* ------------------------------------------------------------------- *)
(** ** loadConfigFromDirectory                                          *)
(* ------------------------------------------------------------------- *)

Definition recognized (path : string) : bool :=
  let ext := Str.ToLower (Str.Ext path) in
  negb (negb (String.eqb ext ".yaml") && negb (String.eqb ext ".yml")
        && negb (String.eqb ext ".json")).

(** The entries of a walk that are not files of another extension. *)
Definition considered (pe : string * event) : bool :=
  match pe.2 with
  | Regular _ => recognized pe.1
  | _ => true
  end.

(** Parsing a file by its extension. *)
Definition parse (path data : string) : result LoadError ConfigBundle :=
  let ext := Str.ToLower (Str.Ext path) in
  if String.eqb ext ".json" then
    match json_Unmarshal data with
    | Some b => Ok b
    | None => Err (ParseJSONFailed path)
    end
  else
    match yaml_Unmarshal data with
    | Some b => Ok b
    | None => Err (ParseYAMLFailed path)
    end.

(** Merging a parsed file into the bundle. *)
Definition merge (bundle tempBundle : ConfigBundle) : ConfigBundle :=
  mkConfigBundle (Version bundle)
    (Routes bundle ++ Routes tempBundle)
    (Middlewares bundle ++ Middlewares tempBundle)
    (assign_all (map_to_list (BundleMetadata tempBundle)) (BundleMetadata bundle))
    (Checksum bundle) (Timestamp bundle).

(** The callback given to [filepath.Walk]. *)
Definition visit (path : string) (ev : event) (bundle : ConfigBundle)
  : result LoadError ConfigBundle :=
  match ev with
  | Failed e => Err (WalkFailed e)
  | IsDir => Ok bundle
  | Regular content =>
      if negb (recognized path) then Ok bundle
      else
        match content with
        | Err e => Err (ReadFailed path e)
        | Ok data =>
            match parse path data with
            | Err e => Err e
            | Ok tempBundle => Ok (merge bundle tempBundle)
            end
        end
  end.

(** A file that cannot be read, or whose content its parser refuses. *)
Definition unusable (path : string) (content : result errno string) : bool :=
  match content with
  | Err _ => true
  | Ok data => is_err (parse path data)
  end.

(** [filepath.Walk] with this callback: the first error stops the walk. *)
Fixpoint run_walk (evs : list (string * event)) (bundle : ConfigBundle)
  : result LoadError ConfigBundle :=
  match evs with
  | [] => Ok bundle
  | (path, ev) :: rest =>
      match visit path ev bundle with
      | Err e => Err e
      | Ok bundle' => run_walk rest bundle'
      end
  end.

Definition empty_bundle : ConfigBundle :=
  mkConfigBundle "1.0" [] [] ∅ "" 0.

Definition loadConfigFromDirectory (w : Env) (directory : string)
  : result LoadError ConfigBundle :=
  run_walk (walk directory (fs w directory)) empty_bundle.

(* ------------------------------------------------------------------- *)
(** ** calculateChecksum                                                *)
(* ------------------------------------------------------------------- *)

Definition calculateChecksum (bundle : ConfigBundle) : string :=
  let temp :=
    mkConfigBundle (Version bundle) (Routes bundle) (Middlewares bundle)
      (BundleMetadata bundle) "" 0 in
  EncodeToString (Sum256 (json_Marshal temp)).

(* ------------------------------------------------------------------- *)
(** ** initialize, NewHTTPProvider, Reload                              *)
(* ------------------------------------------------------------------- *)

(** What [initialize] stores for a source once its bundle is loaded: the
    metadata of the source merged into the bundle, the checksum of that
    bundle, the time stamp, and the cache entry around them. *)
Definition new_entry (w : Env) (i : nat) (cfg : Configuration)
    (bundle : ConfigBundle) : CachedConfig :=
  let bundle :=
    mkConfigBundle (Version bundle) (Routes bundle) (Middlewares bundle)
      (assign_all (map_to_list (Metadata cfg)) (BundleMetadata bundle))
      (Checksum bundle) (Timestamp bundle) in
  let sum := calculateChecksum bundle in
  let bundle :=
    mkConfigBundle (Version bundle) (Routes bundle) (Middlewares bundle)
      (BundleMetadata bundle) sum (now w (2 * i)) in
  mkCachedConfig bundle (now w (2 * i + 1) + five_minutes) sum.

(** The body of the loop of [initialize] for the source at position [i];
    [p] is the provider and [seenIDs] the ids met so far.  The provider
    is changed in place, so what was written before an error stays. *)
Definition init_source (w : Env) (i : nat) (cfg : Configuration)
    (st : HTTPProvider * gset string) : HTTPProvider * gset string * option Error :=
  let '(p, seenIDs) := st in
  let id := BuildCacheKey (order w i) (Metadata cfg) in
  (* cfg.ID = p.BuildCacheKey(cfg.Metadata) *)
  let p := mkHTTPProvider (<[i := with_ID id cfg]> (config p)) (cache p)
             (defaultID p) (lastReload p) (startTime p) (metadata p) in
  if String.eqb id "" then (p, seenIDs, Some ErrIDRequired)
  else if decide (id ∈ seenIDs) then (p, seenIDs, Some (ErrDuplicateID id))
  else
    let seenIDs := {[ id ]} ∪ seenIDs in
    match loadConfigFromDirectory w (Directory cfg) with
    | Err e => (p, seenIDs, Some (ErrLoadConfig id e))
    | Ok bundle =>
        let p := mkHTTPProvider (config p)
                   (<[id := new_entry w i cfg bundle]> (cache p))
                   (if Default cfg then id else defaultID p)
                   (lastReload p) (startTime p)
                   (assign_all (map_to_list (Metadata cfg)) (metadata p)) in
        (p, seenIDs, None)
    end.

(** [for _, cfg := range p.config.Configurations { ... }], from position
    [i] on; an error leaves the loop. *)
Fixpoint init_loop (w : Env) (i : nat) (todo : list Configuration)
    (st : HTTPProvider * gset string) : HTTPProvider * gset string * option Error :=
  match todo with
  | [] => (st, None)
  | cfg :: rest =>
      match init_source w i cfg st with
      | (st', None) => init_loop w (S i) rest st'
      | failed => failed
      end
  end.

(** [HTTPProvider.initialize]: the provider after the call and the error
    returned ([None] for [nil]). *)
Definition initialize (w : Env) (p : HTTPProvider) : HTTPProvider * option Error :=
  let p := with_cache ∅ p in
  match init_loop w 0 (config p) (p, ∅) with
  | (p, _, Some e) => (p, Some e)
  | (p, _, None) => (with_lastReload (now w (2 * length (config p))) p, None)
  end.

(** [NewHTTPProvider]; [start] is the clock when it is called. *)
Definition NewHTTPProvider (w : Env) (start : Z) (configurations : list Configuration)
  : result Error HTTPProvider :=
  let provider := mkHTTPProvider configurations ∅ "" 0 start ∅ in
  match initialize w provider with
  | (_, Some e) => Err (ErrInitialize e)
  | (provider, None) => Ok provider
  end.

(** [HTTPProvider.Reload]. *)
Definition Reload (w : Env) (p : HTTPProvider) : HTTPProvider * option Error :=
  initialize w p.

(** The provider as a reader can find it while [initialize] runs, after
    the cache was emptied and the first [k] sources were handled: the
    cache lock is released after every write. *)
Definition during_reload (w : Env) (k : nat) (p : HTTPProvider) : HTTPProvider :=
  (init_loop w 0 (take k (config p)) (with_cache ∅ p, ∅)).1.1.

(* ------------------------------------------------------------------- *)
(** ** matchConfiguration, GetConfig                                    *)
(* ------------------------------------------------------------------- *)

(** The inner loop: the number of request pairs [(k, v)] with
    [cfg.Metadata[k] == v]. *)
Definition score_of (visit : list (string * string)) (cfg : Configuration) : nat :=
  length (filter (λ kv, index (Metadata cfg) kv.1 = kv.2) visit).

Definition score (metadata : gmap string string) (cfg : Configuration) : nat :=
  score_of (map_to_list metadata) cfg.

(** The outer loop, with its two variables [best] and [bestScore]. *)
Fixpoint best_match (metadata : gmap string string) (todo : list Configuration)
    (best : option Configuration) (bestScore : nat) : option Configuration :=
  match todo with
  | [] => best
  | cfg :: rest =>
      let s := score metadata cfg in
      if decide (bestScore < s) then best_match metadata rest (Some cfg) s
      else best_match metadata rest best bestScore
  end.

(** The fallback loop: the first source whose id is the default id. *)
Fixpoint find_id (id : string) (todo : list Configuration) : option Configuration :=
  match todo with
  | [] => None
  | cfg :: rest => if String.eqb (ID cfg) id then Some cfg else find_id id rest
  end.

Definition matchConfiguration (p : HTTPProvider) (metadata : gmap string string)
  : option Configuration :=
  match best_match metadata (config p) None 0 with
  | Some best => Some best
  | None =>
      if negb (String.eqb (defaultID p) "") then find_id (defaultID p) (config p)
      else None
  end.

Definition GetConfig (p : HTTPProvider) (metadata : gmap string string)
  : result Error (ConfigBundle * Configuration) :=
  match matchConfiguration p metadata with
  | None => Err ErrNoMatch
  | Some cfg =>
      match cache p !! ID cfg with
      | None => Err (ErrNotLoaded (ID cfg))
      | Some cached => Ok (Bundle cached, cfg)
      end
  end.

(* ------------------------------------------------------------------- *)
(** ** Authenticate                                                     *)
(* ------------------------------------------------------------------- *)

(** What [Authenticate] reads of a request: [r.Header.Get("X-API-Key")]
    (empty when the header is absent) and [r.BasicAuth()]. *)
Record Request : Type := mkRequest {
  XAPIKey : string;
  BasicAuthHeader : option (string * string);
}.

Definition Authenticate (r : Request) (cfg : Configuration) : option Error :=
  match Auth cfg with
  | None => None
  | Some auth =>
      match BasicAuthOf auth with
      | None => None
      | Some basic =>
          if negb (String.eqb (APIKey auth) "") && String.eqb (XAPIKey r) (APIKey auth)
          then None
          else if negb (String.eqb (Username basic) "")
                  && match BasicAuthHeader r with
                     | Some (u, pw) =>
                         String.eqb u (Username basic) && String.eqb pw (Password basic)
                     | None => false
                     end
          then None
          else Some (ErrAuthFailed (ID cfg))
      end
  end.

(* ------------------------------------------------------------------- *)
(** ** Config.validate and the start of the process                     *)
(* ------------------------------------------------------------------- *)

(** What [validate] keeps between two sources: the count of defaults and
    the two flags of [Config]. *)
Record Checked : Type := mkChecked {
  defaultCount : nat;
  hasApiKeyAuth : bool;
  hasBasicAuth : bool;
}.

(** [os.IsNotExist(err)] for the error of [os.Stat(dir)]. *)
Definition not_exist (w : Env) (dir : string) : bool :=
  match fs w dir with
  | Unreachable ENOENT => true
  | _ => false
  end.

Definition validate_source (w : Env) (i : nat) (cfg : Configuration) (c : Checked)
  : Checked * option ValidateError :=
  if String.eqb (Directory cfg) "" then (c, Some (DirectoryRequired i))
  else if not_exist w (Directory cfg) then (c, Some (DirectoryMissing i (Directory cfg)))
  else
    let key := match Auth cfg with
               | Some auth => negb (String.eqb (APIKey auth) "") || hasApiKeyAuth c
               | None => hasApiKeyAuth c
               end in
    match Auth cfg ≫= BasicAuthOf with
    | Some basic =>
        if String.eqb (Username basic) "" || String.eqb (Password basic) ""
        then (mkChecked (defaultCount c) key (hasBasicAuth c), Some BasicAuthIncomplete)
        else (mkChecked (if Default cfg then S (defaultCount c) else defaultCount c)
                key true, None)
    | None =>
        (mkChecked (if Default cfg then S (defaultCount c) else defaultCount c)
           key (hasBasicAuth c), None)
    end.

Fixpoint validate_loop (w : Env) (i : nat) (todo : list Configuration) (c : Checked)
  : Checked * option ValidateError :=
  match todo with
  | [] => (c, None)
  | cfg :: rest =>
      match validate_source w i cfg c with
      | (c', None) => validate_loop w (S i) rest c'
      | failed => failed
      end
  end.

(** [Config.validate] on the configurations of the provider file. *)
Definition validate (w : Env) (configurations : list Configuration)
  : Checked * option ValidateError :=
  let c := mkChecked 0 false false in
  if decide (length configurations = 0) then (c, Some NoConfigurations)
  else
    match validate_loop w 0 configurations c with
    | (c, None) =>
        if decide (1 < defaultCount c) then (c, Some MultipleDefault) else (c, None)
    | failed => failed
    end.

(** [main]: [config.New], which validates, then [NewHTTPProvider]. *)
Definition start (w : Env) (t : Z) (configurations : list Configuration)
  : result (ValidateError + Error) HTTPProvider :=
  match validate w configurations with
  | (_, Some e) => Err (inl e)
  | (_, None) =>
      match NewHTTPProvider w t configurations with
      | Err e => Err (inr e)
      | Ok provider => Ok provider
      end
  end.

(* ------------------------------------------------------------------- *)
(** ** ExtractMetadata, GetMetadata, GetStats                           *)
(* ------------------------------------------------------------------- *)

Definition meta_prefix : string := "X-Goma-Meta-".

(** The body of the loop over the query parameters. *)
Definition from_query (metadata : gmap string string) (kv : string * list string)
  : gmap string string :=
  match kv.2 with
  | v :: _ => <[kv.1 := v]> metadata
  | [] => metadata
  end.

(** The body of the loop over the headers. *)
Definition from_header (metadata : gmap string string) (kv : string * list string)
  : gmap string string :=
  if Str.HasPrefix kv.1 meta_prefix then
    match kv.2 with
    | v :: _ => <[Str.ToLower (Str.TrimPrefix kv.1 meta_prefix) := v]> metadata
    | [] => metadata
    end
  else metadata.

(** [HTTPProvider.ExtractMetadata]; [query] and [header] are the entries of
    [r.URL.Query()] and of [r.Header] in the order the two loops visit
    them. *)
Definition ExtractMetadata (query header : list (string * list string))
  : gmap string string :=
  fold_left from_header header (fold_left from_query query ∅).

(** [HTTPProvider.GetMetadata]. *)
Definition GetMetadata (p : HTTPProvider) : gmap string string :=
  match cache p !! defaultID p with
  | Some cached => BundleMetadata (Bundle cached)
  | None => metadata p
  end.

(** [provider.ProviderStats]; the uptime is kept as a duration. *)
Record ProviderStats : Type := mkProviderStats {
  ConfigsLoaded : nat;
  LastReload : Z;
  Uptime : Z;
  CacheHits : Z;
  CacheMisses : Z;
}.

(** [HTTPProvider.GetStats] when the clock shows [t]. *)
Definition GetStats (t : Z) (p : HTTPProvider) : ProviderStats :=
  mkProviderStats (size (cache p)) (lastReload p) (t - startTime p) 0 0.

(* ------------------------------------------------------------------- *)
(** ** The handlers of [services.ProviderService]                       *)
(* ------------------------------------------------------------------- *)

(** What a handler answers: [c.OK], [c.AbortNotFound],
    [c.AbortUnauthorized], [c.AbortInternalServerError] and
    [c.AbortWithStatus(http.StatusNotModified, ...)]. *)
Inductive Response (A : Type) : Type :=
| OK (body : A)
| NotFound (e : Error)
| Unauthorized (e : Error)
| InternalServerError (e : Error)
| NotModified.

(** What the handlers read of a call: the credentials, the query
    parameters and headers as [ExtractMetadata] visits them, and
    [c.Header("If-None-Match")]. *)
Record Call : Type := mkCall {
  credentials : Request;
  URLQuery : list (string * list string);
  Header : list (string * list string);
  IfNoneMatch : string;
}.

(** [ProviderService.configBundle]. *)
Definition configBundle (p : HTTPProvider) (c : Call)
  : result Error (ConfigBundle * Configuration) :=
  GetConfig p (ExtractMetadata (URLQuery c) (Header c)).

(** [ProviderService.GetConfig]: the ETag header that was set, if any, and
    the answer. *)
Definition Service_GetConfig (p : HTTPProvider) (c : Call)
  : option string * Response ConfigBundle :=
  match configBundle p c with
  | Err e => (None, NotFound _ e)
  | Ok (bundle, cfg) =>
      match Authenticate (credentials c) cfg with
      | Some e => (None, Unauthorized _ e)
      | None =>
          if String.eqb (IfNoneMatch c) (Checksum bundle)
          then (Some (Checksum bundle), NotModified _)
          else (Some (Checksum bundle), OK _ bundle)
      end
  end.

(** [ProviderService.GetStats] when the clock shows [t]. *)
Definition Service_GetStats (t : Z) (p : HTTPProvider) (c : Call)
  : Response ProviderStats :=
  match configBundle p c with
  | Err e => NotFound _ e
  | Ok (_, cfg) =>
      match Authenticate (credentials c) cfg with
      | Some e => Unauthorized _ e
      | None => OK _ (GetStats t p)
      end
  end.

(** [ProviderService.ReloadConfig]: the provider after the call and the
    answer, which carries the reload time stamp. *)
Definition Service_ReloadConfig (w : Env) (p : HTTPProvider) (c : Call)
  : HTTPProvider * Response Z :=
  match configBundle p c with
  | Err e => (p, NotFound _ e)
  | Ok (_, cfg) =>
      match Authenticate (credentials c) cfg with
      | Some e => (p, Unauthorized _ e)
      | None =>
          match Reload w p with
          | (p', Some e) => (p', InternalServerError _ e)
          | (p', None) => (p', OK _ (lastReload p'))
          end
      end
  end.

(* ------------------------------------------------------------------- *)
(** ** Words for the statements                                         *)
(* ------------------------------------------------------------------- *)

(** What [validate] asks of one source. *)
Definition source_ok (w : Env) (cfg : Configuration) : bool :=
  negb (String.eqb (Directory cfg) "") && negb (not_exist w (Directory cfg))
  && match Auth cfg ≫= BasicAuthOf with
     | Some basic => negb (String.eqb (Username basic) "" || String.eqb (Password basic) "")
     | None => true
     end.

(** What a step of the walk contributes: the parsed content of a readable
    file of a recognized extension. *)
Definition parsed (pe : string * event) : option ConfigBundle :=
  match pe.2 with
  | Regular (Ok data) =>
      if recognized pe.1 then
        match parse pe.1 data with
        | Ok tempBundle => Some tempBundle
        | Err _ => None
        end
      else None
  | _ => None
  end.

(** A step of the walk at which the callback returns an error. *)
Definition refused (pe : string * event) : bool :=
  match pe.2 with
  | Failed _ => true
  | IsDir => false
  | Regular content => recognized pe.1 && unusable pe.1 content
  end.

(** The pair a query parameter gives, and the pair a header gives. *)
Definition query_pair (kv : string * list string) : option (string * string) :=
  match kv.2 with
  | v :: _ => Some (kv.1, v)
  | [] => None
  end.

Definition header_pair (kv : string * list string) : option (string * string) :=
  if Str.HasPrefix kv.1 meta_prefix then
    match kv.2 with
    | v :: _ => Some (Str.ToLower (Str.TrimPrefix kv.1 meta_prefix), v)
    | [] => None
    end
  else None.

(** A call repeated with another [If-None-Match], or other credentials. *)
Definition with_IfNoneMatch (tag : string) (c : Call) : Call :=
  mkCall (credentials c) (URLQuery c) (Header c) tag.

Definition with_credentials (r : Request) (c : Call) : Call :=
  mkCall r (URLQuery c) (Header c) (IfNoneMatch c).

(** A source without its id. *)
Definition declared (cfg : Configuration) : Configuration := with_ID "" cfg.

(** A cache in which every entry expires at [t]. *)
Definition expiring_at (t : Z) (p : HTTPProvider) : HTTPProvider :=
  with_cache ((λ c, mkCachedConfig (Bundle c) t (ETag c)) <$> cache p) p.

(** The id that a run of [initialize] gives the source at position [i]. *)
Definition id_at (w : Env) (i : nat) (cfg : Configuration) : string :=
  BuildCacheKey (order w i) (Metadata cfg).

(** The ids of the sources [todo], which sit at positions [i], [i+1], ... *)
Fixpoint ids_from (w : Env) (i : nat) (todo : list Configuration) : list string :=
  match todo with
  | [] => []
  | cfg :: rest => id_at w i cfg :: ids_from w (S i) rest
  end.

(** The same sources with their ids written into them. *)
Fixpoint with_ids_from (w : Env) (i : nat) (todo : list Configuration)
  : list Configuration :=
  match todo with
  | [] => []
  | cfg :: rest => with_ID (id_at w i cfg) cfg :: with_ids_from w (S i) rest
  end.

(** The id of the last of the sources [todo] that is marked default, and
    [d] when none is. *)
Fixpoint last_default (w : Env) (i : nat) (todo : list Configuration) (d : string)
  : string :=
  match todo with
  | [] => d
  | cfg :: rest => last_default w (S i) rest (if Default cfg then id_at w i cfg else d)
  end.

(** The number of sources marked default. *)
Definition count_default (configurations : list Configuration) : nat :=
  length (filter (λ cfg, Default cfg = true) configurations).

End Engine.

Arguments ConfigBundle : clear implicits.
Arguments CachedConfig : clear implicits.
Arguments HTTPProvider : clear implicits.
Arguments Libraries : clear implicits.
Arguments init_source : simpl never.
Arguments validate_source : simpl never.
Arguments loadConfigFromDirectory : simpl never.

(* ===================================================================== *)
(** * Concrete inputs                                                     *)
(* ===================================================================== *)

Module Sample.

(** Routes and middlewares are kept as their source text. *)
Definition doc (data : string) : ConfigBundle string string :=
  mkConfigBundle "" [data] [] ∅ "" 0.

(** A stand-in for the parsers: a document that begins with [!] is
    refused, any other is one route. *)
Definition read_doc (data : string) : option (ConfigBundle string string) :=
  match data with
  | String "!" _ => None
  | _ => Some (doc data)
  end.

(** A stand-in for the serializer: every field, in the order of the
    struct, maps in the order of their keys. *)
Definition write_doc (b : ConfigBundle string string) : string :=
  Version b +:+ ";" +:+ Str.Join (Routes b) "," +:+ ";" +:+
  Str.Join (Middlewares b) "," +:+ ";" +:+
  Str.Join (map (λ kv : string * string, kv.1 +:+ ":" +:+ kv.2)
              (map_to_list (BundleMetadata b))) "," +:+ ";" +:+ Checksum b.

#[export] Instance libraries : Libraries string string := {|
  json_Unmarshal := read_doc;
  yaml_Unmarshal := read_doc;
  json_Marshal := write_doc;
  Sum256 := id;
  EncodeToString := id;
|}.

Definition cfg (dir : string) (dflt : bool) (md : gmap string string) : Configuration :=
  mkConfiguration "" dir None dflt md.

(** Three directories: [/prod] and [/staging] hold one route file each,
    [/base] holds a route file and a file that is not configuration;
    [/broken] holds a malformed fragment next to a good one. *)
Definition disk (dir : string) : fstree :=
  if String.eqb dir "/prod" then Dir (Ok [("routes.yaml", File (Ok "prod-route"))])
  else if String.eqb dir "/staging" then Dir (Ok [("routes.json", File (Ok "staging-route"))])
  else if String.eqb dir "/base" then
    Dir (Ok [("README.md", File (Ok "!notes")); ("sub", Dir (Ok [("r.yml", File (Ok "base-route"))]))])
  else if String.eqb dir "/broken" then
    Dir (Ok [("a.yaml", File (Ok "good-route")); ("b.JSON", File (Ok "!{"))])
  else Unreachable ENOENT.

Definition world : Env := mkEnv disk (λ n, Z.of_nat n) (λ _, visit_listed).

Definition A := cfg "/prod" false {[ "env" := "prod" ]}.
Definition B := cfg "/staging" false {[ "env" := "staging" ]}.
Definition D := cfg "/base" true ∅.

(** The index at the start of the process, and after a reload with the
    disk unchanged. *)
Definition index0 : HTTPProvider string string :=
  (initialize world (mkHTTPProvider [A; B; D] ∅ "" 0 0 ∅)).1.
Definition index1 : HTTPProvider string string := (Reload world index0).1.

(** Later a malformed fragment is written into [/staging]. *)
Definition disk_later (dir : string) : fstree :=
  if String.eqb dir "/staging" then Dir (Ok [("routes.json", File (Ok "!{"))])
  else disk dir.

Definition world_later : Env := mkEnv disk_later (λ n, Z.of_nat (100 + n)) (λ _, visit_listed).

(** Sources with the metadata of [A]: in the broken directory, in a good
    one, and marked default. *)
Definition A_broken := cfg "/broken" false {[ "env" := "prod" ]}.
Definition A_again := cfg "/staging" false {[ "env" := "prod" ]}.
Definition A_default := cfg "/prod" true {[ "env" := "prod" ]}.

(** Two sources with the same two metadata entries, and a run in which
    the entries of the second are visited in the other order. *)
Definition two_keys : gmap string string := {[ "env" := "prod"; "region" := "eu" ]}.
Definition P1 := cfg "/prod" false two_keys.
Definition P2 := cfg "/staging" false two_keys.
Definition world_mixed : Env :=
  mkEnv disk (λ n, Z.of_nat n) (λ i, if decide (i = 0) then visit_listed else visit_reversed).

(** Two bundles that differ in checksum and time stamp only. *)
Definition bundle1 : ConfigBundle string string :=
  mkConfigBundle "1.0" ["r1"; "r2"] ["m"] {[ "env" := "prod" ]} "" 0.
Definition bundle2 : ConfigBundle string string :=
  mkConfigBundle "1.0" ["r1"; "r2"] ["m"] {[ "env" := "prod" ]} "abc" 1700000000.

(** A source that asks for an API key and has no basic-auth credentials,
    and a request without any credentials. *)
Definition key_only : HTTPAuth := mkHTTPAuth "dev-secret-key-123" None.
Definition A_key := mkConfiguration "env=prod" "/prod" (Some key_only) false {[ "env" := "prod" ]}.
Definition anonymous : Request := mkRequest "" None.

(** The provider before its first [initialize], the bundle the index
    serves for {env:prod}, and a call that asks for it. *)
Definition start0 : HTTPProvider string string :=
  mkHTTPProvider [A; B; D] ∅ "" 0 0 ∅.
Definition bundleA : ConfigBundle string string :=
  match GetConfig index0 {[ "env" := "prod" ]} with
  | Ok (b, _) => b
  | Err _ => empty_bundle
  end.
Definition query0 : list (string * list string) :=
  [("env", ["qa"]); ("zone", ["a"; "b"])].
Definition header0 : list (string * list string) :=
  [("Accept", ["*/*"]); ("X-Goma-Meta-Env", ["prod"])].
Definition call0 : Call := mkCall anonymous query0 header0 "".

(** An index whose source for {env:prod} asks for an API key only, and one
    whose default source declares metadata. *)
Definition index_key : HTTPProvider string string :=
  (initialize world (mkHTTPProvider [A_key; D] ∅ "" 0 0 ∅)).1.
Definition bundleK : ConfigBundle string string :=
  match GetConfig index_key {[ "env" := "prod"; "zone" := "a" ]} with
  | Ok (b, _) => b
  | Err _ => empty_bundle
  end.
Definition index_default : HTTPProvider string string :=
  (initialize world (mkHTTPProvider [A_default; B] ∅ "" 0 0 ∅)).1.

End Sample.

(* ===================================================================== *)
(** * Properties                                                          *)
(* ===================================================================== *)

Section Properties.

Local Open Scope nat_scope.
Local Open Scope list_scope.

Context {Route Middleware : Type} {libraries : Libraries Route Middleware}.

Implicit Types (p : HTTPProvider Route Middleware) (cfg : Configuration).
Implicit Types (md : gmap string string) (w : Env).
Implicit Types (best : option Configuration) (bs : nat).

(* ------------------------------------------------------------------- *)
(** ** Ranging over a map: what does not depend on the order            *)
(* ------------------------------------------------------------------- *)

Lemma assign_all_union (l : list (string * string)) (dst : gmap string string) :
  NoDup l.*1 → assign_all l dst = list_to_map l ∪ dst.
Proof.
  unfold assign_all. revert dst.
  induction l as [|[k v] l IH]; intros dst Hnd; simpl.
  - by rewrite (left_id_L ∅ (∪)).
  - apply NoDup_cons in Hnd as [Hk Hnd]. rewrite IH by done.
    apply map_eq; intros j. rewrite !lookup_union.
    destruct (decide (k = j)) as [->|Hne].
    + rewrite (not_elem_of_list_to_map_1 l j Hk), !lookup_insert_eq.
      by destruct (dst !! j).
    + by rewrite !lookup_insert_ne by done.
Qed.

(** Whatever order the [range] takes, copying [src] into [dst] entry by
    entry gives the union in which [src] wins. *)
Lemma assign_all_fair (ρ : Visit) (src dst : gmap string string) :
  fair ρ → assign_all (ρ src) dst = src ∪ dst.
Proof.
  intros Hρ. rewrite assign_all_union.
  - f_equal. rewrite (list_to_map_proper (ρ src) (map_to_list src)).
    + apply list_to_map_to_list.
    + rewrite (Hρ src). apply NoDup_fst_map_to_list.
    + apply Hρ.
  - rewrite (Hρ src). apply NoDup_fst_map_to_list.
Qed.

(** The score does not depend on the order in which the request metadata
    is visited. *)
Lemma score_of_fair (ρ : Visit) md cfg :
  fair ρ → score_of (ρ md) cfg = score md cfg.
Proof.
  intros Hρ. unfold score, score_of. by rewrite (Hρ md).
Qed.

(* ------------------------------------------------------------------- *)
(** ** Authenticate                                                     *)
(* ------------------------------------------------------------------- *)

(** C3: a source whose auth requirement has a non-empty API key and no
    basic-auth credentials accepts every request: whatever the request
    carries as X-API-Key (nothing, a wrong key, the right key) and as
    basic-auth header, [Authenticate] returns no error. *)
Theorem Authenticate_api_key_without_basic_auth
    (r : Request) cfg (auth : HTTPAuth) :
  Auth cfg = Some auth →
  BasicAuthOf auth = None →
  APIKey auth ≠ "" →
  Authenticate r cfg = None.
Proof.
  intros Hauth Hbasic _. unfold Authenticate. by rewrite Hauth, Hbasic.
Qed.

(* ------------------------------------------------------------------- *)
(** ** calculateChecksum                                                *)
(* ------------------------------------------------------------------- *)

(** C7: two bundles with the same version, routes, middlewares and
    metadata content have the same checksum, whatever their checksum and
    timestamp fields hold. *)
Theorem calculateChecksum_content_only (b1 b2 : ConfigBundle Route Middleware) :
  Version b1 = Version b2 →
  Routes b1 = Routes b2 →
  Middlewares b1 = Middlewares b2 →
  (∀ k, BundleMetadata b1 !! k = BundleMetadata b2 !! k) →
  calculateChecksum b1 = calculateChecksum b2.
Proof.
  intros Hv Hr Hm Hmd. apply map_eq in Hmd.
  unfold calculateChecksum. by rewrite Hv, Hr, Hm, Hmd.
Qed.

(* ------------------------------------------------------------------- *)
(** ** matchConfiguration                                               *)
(* ------------------------------------------------------------------- *)

(** Sources that do not beat the best score so far change nothing. *)
Lemma best_match_keep md (todo : list Configuration) best bs :
  (∀ x, x ∈ todo → score md x ≤ bs) → best_match md todo best bs = best.
Proof.
  revert best bs. induction todo as [|c todo IH]; intros best bs Hle; [done|].
  simpl. destruct (decide (bs < score md c)) as [Hlt|_].
  - specialize (Hle c (list_elem_of_here _ _)). lia.
  - apply IH. intros x Hx. apply Hle. by right.
Qed.

(** The scan returns the first of the sources with the highest score,
    when that score beats the starting one. *)
Lemma best_match_first_top md (l1 l2 : list Configuration) c best bs :
  bs < score md c →
  (∀ x, x ∈ l1 → score md x < score md c) →
  (∀ x, x ∈ l2 → score md x ≤ score md c) →
  best_match md (l1 ++ c :: l2) best bs = Some c.
Proof.
  revert best bs. induction l1 as [|a l1 IH]; intros best bs Hbs H1 H2; simpl.
  - rewrite decide_True by done. by apply best_match_keep.
  - assert (score md a < score md c) by (apply H1; left).
    assert (∀ x, x ∈ l1 → score md x < score md c) by (intros; apply H1; by right).
    destruct (decide (bs < score md a)); by apply IH.
Qed.

(** A source returned by the scan was the starting one or beat the
    starting score. *)
Lemma best_match_found md (todo : list Configuration) best bs c :
  best_match md todo best bs = Some c →
  best = Some c ∨ (c ∈ todo ∧ bs < score md c).
Proof.
  revert best bs. induction todo as [|a todo IH]; intros best bs; simpl.
  - by left.
  - destruct (decide (bs < score md a)) as [Hlt|Hge]; intros Hb.
    + destruct (IH _ _ Hb) as [[= ->]|[Hin Hs]].
      * right. split; [left | done].
      * right. split; [by right | lia].
    + destruct (IH _ _ Hb) as [->|[Hin Hs]]; [by left | right].
      split; [by right | done].
Qed.

Lemma best_match_from_some md (todo : list Configuration) c bs :
  is_Some (best_match md todo (Some c) bs).
Proof.
  revert c bs. induction todo as [|a todo IH]; intros c bs; simpl; [by eexists|].
  destruct (decide (bs < score md a)); apply IH.
Qed.

(** Some source beats the starting score: the scan returns a source that
    does. *)
Lemma best_match_beaten md (todo : list Configuration) best bs x :
  x ∈ todo → bs < score md x →
  ∃ c, best_match md todo best bs = Some c ∧ c ∈ todo ∧ bs < score md c.
Proof.
  revert best bs. induction todo as [|a todo IH]; intros best bs Hin Hlt.
  - by apply elem_of_nil in Hin.
  - simpl. destruct (decide (bs < score md a)) as [Ha|Ha].
    + destruct (best_match_from_some md todo a (score md a)) as [c Hc].
      exists c. split; [done|].
      destruct (best_match_found _ _ _ _ _ Hc) as [[= ->]|[Hcin Hcs]].
      * split; [left | done].
      * split; [by right | lia].
    + apply elem_of_cons in Hin as [->|Hin]; [lia|].
      destruct (IH best bs Hin Hlt) as (c & Hc & Hcin & Hcs).
      exists c. split_and!; [done | by right | done].
Qed.

(** The pair [(k, "")] of a request matches a source without key [k]. *)
Lemma score_empty_value md cfg k :
  md !! k = Some "" → Metadata cfg !! k = None → 1 ≤ score md cfg.
Proof.
  intros Hmd Hcfg. unfold score, score_of.
  assert ((k, "") ∈ filter (λ kv : string * string, index (Metadata cfg) kv.1 = kv.2)
                       (map_to_list md)) as Hin.
  { apply list_elem_of_filter. split.
    - unfold index. simpl. by rewrite Hcfg.
    - by apply elem_of_map_to_list. }
  destruct (filter _ _); [by apply elem_of_nil in Hin | simpl; lia].
Qed.

(** C10: a request pair with an empty value counts as a match against a
    source that does not declare its key, so the request scores at least
    1 against such a source; with such a source in the index the request
    is matched by score, whatever the default id is: [matchConfiguration]
    returns the source found by the scoring scan, with a score of at
    least 1, and never reaches the fallback to the default. *)
Theorem empty_value_matches_absent_key md cfg k :
  md !! k = Some "" →
  Metadata cfg !! k = None →
  1 ≤ score md cfg ∧
  ∀ p, cfg ∈ config p →
    ∃ chosen, best_match md (config p) None 0 = Some chosen ∧
              matchConfiguration p md = Some chosen ∧
              chosen ∈ config p ∧ 1 ≤ score md chosen.
Proof.
  intros Hmd Hcfg.
  pose proof (score_empty_value md cfg k Hmd Hcfg) as Hs.
  split; [done|]. intros p Hin.
  destruct (best_match_beaten md (config p) None 0 cfg Hin) as (c & Hc & Hcin & Hcs);
    [lia|].
  exists c. unfold matchConfiguration. rewrite Hc. split_and!; [done..|lia].
Qed.

(* ------------------------------------------------------------------- *)
(** ** loadConfigFromDirectory                                          *)
(* ------------------------------------------------------------------- *)

(** The callback refuses an unusable file of a recognized extension,
    whatever was merged before. *)
Lemma visit_unusable path content (bundle : ConfigBundle Route Middleware) :
  recognized path = true → unusable path content = true →
  is_err (visit path (Regular content) bundle) = true.
Proof.
  intros Hrec Hbad. unfold visit. rewrite Hrec. simpl.
  destruct content as [data|e]; [|done].
  simpl in Hbad. by destruct (parse path data).
Qed.

(** The callback passes over a file of any other extension. *)
Lemma visit_other_extension path content (bundle : ConfigBundle Route Middleware) :
  recognized path = false → visit path (Regular content) bundle = Ok bundle.
Proof. intros Hrec. unfold visit. by rewrite Hrec. Qed.

(** An entry that the callback always refuses makes the walk fail. *)
Lemma run_walk_refused (evs : list (string * event)) path ev :
  (path, ev) ∈ evs →
  (∀ b : ConfigBundle Route Middleware, is_err (visit path ev b) = true) →
  ∀ b, is_err (run_walk evs b) = true.
Proof.
  intros Hin Hbad. induction evs as [|[path' ev'] evs IH]; intros b.
  - by apply elem_of_nil in Hin.
  - simpl. apply elem_of_cons in Hin as [[= <- <-]|Hin].
    + specialize (Hbad b). by destruct (visit path ev b).
    + destruct (visit path' ev' b); [by apply IH | done].
Qed.

(** Files of other extensions can be taken out of the walk. *)
Lemma run_walk_skips (evs : list (string * event)) (b : ConfigBundle Route Middleware) :
  run_walk evs b =
  run_walk (filter (λ pe, considered pe = true) evs) b.
Proof.
  revert b. induction evs as [|[path ev] evs IH]; intros b; [done|].
  rewrite filter_cons. case_decide as Hkeep; simpl in *.
  - destruct (visit path ev b); [apply IH | done].
  - destruct ev as [e| |content]; try done.
    unfold considered in Hkeep. simpl in Hkeep.
    apply not_true_is_false in Hkeep.
    rewrite visit_other_extension by done. apply IH.
Qed.

(** C8: when a file under the directory has a recognized extension (.yaml,
    .yml or .json, in any letter case) and cannot be read or is refused
    by its parser, [loadConfigFromDirectory] returns an error and no
    bundle; a file of any other extension is passed over by the callback,
    readable or not, and the load is the same as without such files. *)
Theorem loadConfigFromDirectory_all_or_nothing w directory path content :
  (path, Regular content) ∈ walk directory (fs w directory) →
  recognized path = true →
  unusable path content = true →
  (∃ e, loadConfigFromDirectory w directory = Err e) ∧
  (∀ path' content' (b : ConfigBundle Route Middleware),
      recognized path' = false → visit path' (Regular content') b = Ok b) ∧
  (∀ dir', loadConfigFromDirectory w dir' =
           run_walk (filter (λ pe, considered pe = true) (walk dir' (fs w dir')))
             empty_bundle).
Proof.
  intros Hin Hrec Hbad. split_and!.
  - unfold loadConfigFromDirectory.
    pose proof (run_walk_refused _ path (Regular content) Hin
                  (λ b, visit_unusable path content b Hrec Hbad) empty_bundle) as Herr.
    destruct (run_walk _ _) as [b|e]; [done | by exists e].
  - intros. by apply visit_other_extension.
  - intros. apply run_walk_skips.
Qed.

(* ------------------------------------------------------------------- *)
(** ** Config.validate                                                  *)
(* ------------------------------------------------------------------- *)

Lemma validate_source_count w i cfg (c c' : Checked) :
  validate_source w i cfg c = (c', None) →
  defaultCount c' = (if Default cfg then S (defaultCount c) else defaultCount c).
Proof.
  unfold validate_source. intros H.
  repeat (case_match; simplify_eq/=); done.
Qed.

Lemma validate_loop_count w (todo : list Configuration) i (c c' : Checked) :
  validate_loop w i todo c = (c', None) →
  defaultCount c' = defaultCount c + count_default todo.
Proof.
  revert i c. induction todo as [|cfg todo IH]; intros i c; simpl.
  - intros [= <-]. unfold count_default. simpl. lia.
  - destruct (validate_source w i cfg c) as [c1 [e|]] eqn:Hsrc; [done|].
    intros Hloop. apply IH in Hloop. apply validate_source_count in Hsrc.
    unfold count_default in *. rewrite filter_cons.
    destruct (Default cfg); case_decide; simpl; try done; lia.
Qed.

(** With more than one source marked default, [validate] returns an
    error: that of the first source that fails its own checks, and the
    error about defaults when none does. *)
Lemma validate_multiple_default w (configurations : list Configuration) :
  1 < count_default configurations →
  (∃ e, (validate w configurations).2 = Some e) ∧
  (∀ c, validate_loop w 0 configurations (mkChecked 0 false false) = (c, None) →
        (validate w configurations).2 = Some MultipleDefault).
Proof.
  intros Hcount. unfold validate.
  destruct (decide (length configurations = 0)) as [Hlen|Hlen].
  { apply nil_length_inv in Hlen. subst. unfold count_default in Hcount.
    simpl in Hcount. lia. }
  destruct (validate_loop w 0 configurations _) as [c [e|]] eqn:Hloop.
  - split; [by exists e | intros; simplify_eq].
  - apply validate_loop_count in Hloop. simpl in Hloop.
    rewrite decide_True by lia. split; [by eexists | done].
Qed.

(* ------------------------------------------------------------------- *)
(** ** initialize: one source                                           *)
(* ------------------------------------------------------------------- *)

(** A source that is indexed: its id is new, its directory loads, and
    the provider changes as follows. *)
Lemma init_source_ok w i cfg p (seen : gset string) p' seen' :
  init_source w i cfg (p, seen) = (p', seen', None) →
  id_at w i cfg ≠ "" ∧ (id_at w i cfg ∉ seen) ∧ seen' = ({[ id_at w i cfg ]} ∪ seen) ∧
  ∃ bundle, loadConfigFromDirectory w (Directory cfg) = Ok bundle ∧
    config p' = (<[i := with_ID (id_at w i cfg) cfg]> (config p)) ∧
    cache p' = (<[id_at w i cfg := new_entry w i cfg bundle]> (cache p)) ∧
    defaultID p' = (if Default cfg then id_at w i cfg else defaultID p) ∧
    lastReload p' = lastReload p.
Proof.
  unfold init_source, id_at.
  destruct (String.eqb _ "") eqn:Hid; [done|]. apply String.eqb_neq in Hid.
  destruct (decide (_ ∈ seen)) as [|Hnew]; [done|].
  destruct (loadConfigFromDirectory w (Directory cfg)) as [bundle|e]; [|done].
  intros [= <- <-]. split_and!; [done..|]. by exists bundle.
Qed.

(** A source that is refused: why, and what stays of the provider. *)
Lemma init_source_err w i cfg p (seen : gset string) p' seen' err :
  init_source w i cfg (p, seen) = (p', seen', Some err) →
  cache p' = cache p ∧ defaultID p' = defaultID p ∧ lastReload p' = lastReload p ∧
  ((err = ErrIDRequired ∧ id_at w i cfg = "") ∨
   (err = ErrDuplicateID (id_at w i cfg) ∧ id_at w i cfg ∈ seen) ∨
   (∃ e, loadConfigFromDirectory w (Directory cfg) = Err e ∧
         err = ErrLoadConfig (id_at w i cfg) e ∧ id_at w i cfg ∉ seen)).
Proof.
  unfold init_source, id_at.
  destruct (String.eqb _ "") eqn:Hid.
  { apply String.eqb_eq in Hid. intros [= <- <- <-]. split_and!; [done..|]. by left. }
  destruct (decide (_ ∈ seen)) as [Hold|Hnew].
  { intros [= <- <- <-]. split_and!; [done..|]. right; by left. }
  destruct (loadConfigFromDirectory w (Directory cfg)) as [bundle|e]; [done|].
  intros [= <- <- <-]. split_and!; [done..|]. right; right. by exists e.
Qed.

(* ------------------------------------------------------------------- *)
(** ** initialize: the loop                                             *)
(* ------------------------------------------------------------------- *)

(** The loop over [l1 ++ l2] is the loop over [l1], then, if it did not
    fail, the loop over [l2] from where it stopped. *)
Lemma init_loop_app w (l1 l2 : list Configuration) i
    (st : HTTPProvider Route Middleware * gset string) :
  init_loop w i (l1 ++ l2) st =
  match init_loop w i l1 st with
  | (st', None) => init_loop w (i + length l1) l2 st'
  | failed => failed
  end.
Proof.
  revert i st. induction l1 as [|cfg l1 IH]; intros i st; simpl.
  - by rewrite Nat.add_0_r.
  - destruct (init_source w i cfg st) as [st1 [e|]]; [done|].
    rewrite IH. by replace (S i + length l1) with (i + S (length l1)) by lia.
Qed.

Lemma ids_from_app w (l1 l2 : list Configuration) i :
  ids_from w i (l1 ++ l2) = ids_from w i l1 ++ ids_from w (i + length l1) l2.
Proof.
  revert i. induction l1 as [|cfg l1 IH]; intros i; simpl.
  - by rewrite Nat.add_0_r.
  - rewrite IH. by replace (S i + length l1) with (i + S (length l1)) by lia.
Qed.

Lemma ids_from_lookup w (todo : list Configuration) i n cfg :
  todo !! n = Some cfg → ids_from w i todo !! n = Some (id_at w (i + n) cfg).
Proof.
  revert i n. induction todo as [|c todo IH]; intros i [|n]; simpl; try done.
  - intros [= ->]. by rewrite Nat.add_0_r.
  - intros Hn. rewrite (IH (S i) n Hn). do 2 f_equal. lia.
Qed.

Lemma with_ids_from_lookup w (todo : list Configuration) i n :
  with_ids_from w i todo !! n =
  (λ cfg, with_ID (id_at w (i + n) cfg) cfg) <$> todo !! n.
Proof.
  revert i n. induction todo as [|c todo IH]; intros i [|n]; simpl; try done.
  - by rewrite Nat.add_0_r.
  - rewrite IH. by replace (S i + n) with (i + S n) by lia.
Qed.

(** The ids met: those of the sources handled, all new, none empty and no
    two equal. *)
Lemma init_loop_seen w (todo : list Configuration) i p (seen : gset string) p' seen' :
  init_loop w i todo (p, seen) = (p', seen', None) →
  seen' = (list_to_set (ids_from w i todo) ∪ seen) ∧
  NoDup (ids_from w i todo) ∧
  (∀ id, id ∈ ids_from w i todo → (id ∉ seen) ∧ id ≠ "").
Proof.
  revert i p seen. induction todo as [|cfg todo IH]; intros i p seen; simpl.
  - intros [= <- <-]. split_and!; [set_solver | constructor |].
    intros id Hin. by apply elem_of_nil in Hin.
  - destruct (init_source w i cfg (p, seen)) as [[p1 seen1] [e|]] eqn:Hsrc; [done|].
    intros Hloop.
    apply init_source_ok in Hsrc as (Hne & Hnew & -> & _).
    apply IH in Hloop as (-> & Hnd & Hids).
    split_and!.
    + set_solver.
    + constructor; [|done]. intros Hin. apply Hids in Hin as [Hin _]. set_solver.
    + intros id [->|Hin]%elem_of_cons; [done|].
      apply Hids in Hin as [Hin ?]. set_solver.
Qed.

(** The cache: entries are added for the ids of the sources handled, and
    an entry is never replaced when the cache held only ids met before. *)
Lemma init_loop_cache w (todo : list Configuration) i p (seen : gset string) p' seen' :
  init_loop w i todo (p, seen) = (p', seen', None) →
  dom (cache p') = (list_to_set (ids_from w i todo) ∪ dom (cache p)) ∧
  (dom (cache p) ⊆ seen → cache p ⊆ cache p').
Proof.
  revert i p seen. induction todo as [|cfg todo IH]; intros i p seen; simpl.
  - intros [= <- <-]. split; [set_solver | done].
  - destruct (init_source w i cfg (p, seen)) as [[p1 seen1] [e|]] eqn:Hsrc; [done|].
    intros Hloop.
    apply init_source_ok in Hsrc as (_ & Hnew & -> & bundle & _ & _ & Hcache & _).
    apply IH in Hloop as [Hdom Hsub]. split.
    + rewrite Hdom, Hcache, dom_insert_L. set_solver.
    + intros Hseen. etrans; [|apply Hsub].
      * rewrite Hcache. apply insert_subseteq, not_elem_of_dom. set_solver.
      * rewrite Hcache, dom_insert_L. set_solver.
Qed.

(** The default id: that of the last source marked default. *)
Lemma init_loop_defaultID w (todo : list Configuration) i p (seen : gset string) p' seen' :
  init_loop w i todo (p, seen) = (p', seen', None) →
  defaultID p' = last_default w i todo (defaultID p).
Proof.
  revert i p seen. induction todo as [|cfg todo IH]; intros i p seen; simpl.
  - by intros [= <- <-].
  - destruct (init_source w i cfg (p, seen)) as [[p1 seen1] [e|]] eqn:Hsrc; [done|].
    intros Hloop.
    apply init_source_ok in Hsrc as (_ & _ & _ & bundle & _ & _ & _ & Hd & _).
    apply IH in Hloop. by rewrite Hloop, Hd.
Qed.

(** The loop never writes [lastReload], whether it fails or not. *)
Lemma init_loop_lastReload w (todo : list Configuration) i p (seen : gset string)
    p' seen' res :
  init_loop w i todo (p, seen) = (p', seen', res) → lastReload p' = lastReload p.
Proof.
  revert i p seen. induction todo as [|cfg todo IH]; intros i p seen; simpl.
  - by intros [= <- <- <-].
  - destruct (init_source w i cfg (p, seen)) as [[p1 seen1] [e|]] eqn:Hsrc.
    + intros [= <- <- <-]. by apply init_source_err in Hsrc as (_ & _ & ? & _).
    + intros Hloop. apply IH in Hloop.
      apply init_source_ok in Hsrc as (_ & _ & _ & bundle & _ & _ & _ & _ & Hl).
      congruence.
Qed.

(** The sources: each one handled has its id written into it. *)
Lemma init_loop_config w (todo : list Configuration) i p (seen : gset string) p' seen' :
  init_loop w i todo (p, seen) = (p', seen', None) →
  i + length todo ≤ length (config p) →
  config p' =
  take i (config p) ++ with_ids_from w i todo ++ drop (i + length todo) (config p).
Proof.
  revert i p seen. induction todo as [|cfg todo IH]; intros i p seen; simpl.
  - intros [= <- <-] _. by rewrite Nat.add_0_r, take_drop.
  - destruct (init_source w i cfg (p, seen)) as [[p1 seen1] [e|]] eqn:Hsrc; [done|].
    intros Hloop Hlen.
    apply init_source_ok in Hsrc as (_ & _ & _ & bundle & _ & Hcfg & _).
    apply IH in Hloop; [|rewrite Hcfg, length_insert; lia].
    rewrite Hloop, Hcfg.
    rewrite (take_S_r _ i (with_ID (id_at w i cfg) cfg))
      by (apply list_lookup_insert_eq; lia).
    rewrite take_insert_ge by lia.
    rewrite drop_insert_lt by lia.
    rewrite <- app_assoc. simpl.
    by replace (i + S (length todo)) with (S (i + length todo)) by lia.
Qed.

(** A loop that fails: the sources before the one refused were indexed. *)
Lemma init_loop_failed w (todo : list Configuration) i p (seen : gset string)
    p' seen' err :
  init_loop w i todo (p, seen) = (p', seen', Some err) →
  ∃ l1 cfg l2 p1 seen1,
    todo = l1 ++ cfg :: l2 ∧
    init_loop w i l1 (p, seen) = (p1, seen1, None) ∧
    init_source w (i + length l1) cfg (p1, seen1) = (p', seen', Some err).
Proof.
  revert i p seen. induction todo as [|cfg todo IH]; intros i p seen; simpl; [done|].
  destruct (init_source w i cfg (p, seen)) as [[p1 seen1] [e|]] eqn:Hsrc.
  - intros [= <- <- <-]. exists [], cfg, todo, p, seen. simpl.
    by rewrite Nat.add_0_r.
  - intros Hloop. apply IH in Hloop as (l1 & c & l2 & p2 & seen2 & -> & Hl1 & Hc).
    exists (cfg :: l1), c, l2, p2, seen2. simpl. rewrite Hsrc.
    split_and!; [done..|].
    by replace (i + S (length l1)) with (S i + length l1) by lia.
Qed.

(** The sources that a loop without failure handled all loaded, and the
    cache holds what was built from their bundles. *)
Lemma init_loop_loads w (todo : list Configuration) i p (seen : gset string) p' seen' :
  init_loop w i todo (p, seen) = (p', seen', None) →
  dom (cache p) ⊆ seen →
  ∀ n cfg, todo !! n = Some cfg →
    ∃ bundle, loadConfigFromDirectory w (Directory cfg) = Ok bundle ∧
              cache p' !! id_at w (i + n) cfg = Some (new_entry w (i + n) cfg bundle).
Proof.
  revert i p seen. induction todo as [|c todo IH]; intros i p seen; simpl; [done|].
  destruct (init_source w i c (p, seen)) as [[p1 seen1] [e|]] eqn:Hsrc; [done|].
  intros Hloop Hdom [|n] cfg Hn; simpl in Hn.
  - injection Hn as ->. rewrite Nat.add_0_r.
    apply init_source_ok in Hsrc as (_ & Hnew & -> & bundle & Hload & _ & Hcache & _).
    exists bundle. split; [done|].
    apply init_loop_cache in Hloop as [_ Hsub].
    eapply lookup_weaken; [|apply Hsub].
    + rewrite Hcache. apply lookup_insert_eq.
    + rewrite Hcache, dom_insert_L. set_solver.
  - replace (i + S n) with (S i + n) by lia.
    apply (IH _ _ _ Hloop); [|done].
    apply init_source_ok in Hsrc as (_ & Hnew & -> & bundle & _ & _ & Hcache & _).
    rewrite Hcache, dom_insert_L. set_solver.
Qed.

(* ------------------------------------------------------------------- *)
(** ** BuildCacheKey                                                    *)
(* ------------------------------------------------------------------- *)

Lemma BuildCacheKey_empty (ρ : Visit) : BuildCacheKey ρ ∅ = "default".
Proof. done. Qed.


(* ------------------------------------------------------------------- *)
(** ** initialize and Reload                                            *)
(* ------------------------------------------------------------------- *)

(** The provider a reader finds after [k] sources is the one the loop
    over the first [k] sources leaves. *)
Lemma during_reload_prefix w p k s (seen : gset string) res :
  init_loop w 0 (take k (config p)) (with_cache ∅ p, ∅) = (s, seen, res) →
  during_reload w k p = s.
Proof. intros H. unfold during_reload. by rewrite H. Qed.

(** C1, as amended: when the directory of a source fails to load, the
    reload stops at the first source that is refused (that source or one
    before it) and returns its error to the caller, which is the load
    error itself when the sources before were indexed and the id is new;
    [lastReload] keeps its value.  The cache is not put back: it was
    emptied when the reload began and holds the entries built for the
    sources before the one refused, and nothing else. *)
Theorem Reload_load_error w p k cfg e :
  config p !! k = Some cfg →
  loadConfigFromDirectory w (Directory cfg) = Err e →
  ∃ p' err j cj,
    Reload w p = (p', Some err) ∧
    j ≤ k ∧ config p !! j = Some cj ∧
    lastReload p' = lastReload p ∧
    cache p' = cache (during_reload w j p) ∧
    dom (cache p') = list_to_set (ids_from w 0 (take j (config p))) ∧
    (err = ErrIDRequired ∨ err = ErrDuplicateID (id_at w j cj) ∨
     (∃ e', loadConfigFromDirectory w (Directory cj) = Err e' ∧
            err = ErrLoadConfig (id_at w j cj) e' ∧
            cache p' !! id_at w j cj = None)) ∧
    (∀ s seen,
        init_loop w 0 (take k (config p)) (with_cache ∅ p, ∅) = (s, seen, None) →
        id_at w k cfg ≠ "" → id_at w k cfg ∉ seen →
        j = k ∧ err = ErrLoadConfig (id_at w k cfg) e).
Proof.
  intros Hk Hload. unfold Reload, initialize. simpl.
  destruct (init_loop w 0 (config p) _) as [[p' seen'] [err|]] eqn:Hloop.
  2:{ exfalso.
      destruct (init_loop_loads _ _ _ _ _ _ _ Hloop (empty_subseteq _) k cfg Hk)
        as (b & Hb & _). congruence. }
  destruct (init_loop_failed _ _ _ _ _ _ _ _ Hloop)
    as (l1 & cj & l2 & p1 & seen1 & Hsplit & Hl1 & Hsrc).
  simpl in Hsrc.
  assert (take (length l1) (config p) = l1) as Htake
    by (rewrite Hsplit; apply take_app_length).
  assert (during_reload w (length l1) p = p1) as Hmid
    by (eapply during_reload_prefix; by rewrite Htake).
  assert (length l1 ≤ k) as Hjk.
  { destruct (decide (length l1 ≤ k)) as [|Hgt]; [done|]. exfalso.
    assert (l1 !! k = Some cfg) as Hk1
      by (rewrite <- Hk, Hsplit; symmetry; apply lookup_app_l; lia).
    destruct (init_loop_loads _ _ _ _ _ _ _ Hl1 (empty_subseteq _) k cfg Hk1)
      as (b & Hb & _). congruence. }
  pose proof Hl1 as Hseen. apply init_loop_seen in Hseen as (Hseen1 & _ & _).
  pose proof Hl1 as Hdom. apply init_loop_cache in Hdom as [Hdom _].
  simpl in Hdom. rewrite dom_empty_L, (right_id_L ∅ (∪)) in Hdom.
  rewrite (right_id_L ∅ (∪)) in Hseen1.
  pose proof (init_loop_lastReload _ _ _ _ _ _ _ _ Hl1) as Hlast.
  pose proof (init_source_err _ _ _ _ _ _ _ _ Hsrc) as (Hc & _ & Hl & Hwhy).
  exists p', err, (length l1), cj. split_and!; try done.
  - rewrite Hsplit. by apply list_lookup_middle.
  - by rewrite Hl, Hlast.
  - by rewrite Hmid.
  - by rewrite Hc, Htake.
  - destruct Hwhy as [[? _]|[[? _]|(e' & ? & ? & Hnew)]]; [by left | right; by left |].
    right; right. exists e'. split_and!; [done..|].
    apply not_elem_of_dom. rewrite Hc, Hdom. by rewrite Hseen1 in Hnew.
  - intros s seen Hpre Hne Hnew.
    assert (length l1 = k) as Heq.
    { destruct (decide (length l1 = k)) as [|Hlt]; [done|]. exfalso.
      assert (take k (config p) = l1 ++ cj :: take (k - S (length l1)) l2) as Hk'.
      { rewrite Hsplit, take_app_ge by lia.
        f_equal. by replace (k - length l1) with (S (k - S (length l1))) by lia. }
      rewrite Hk', init_loop_app, Hl1 in Hpre. simpl in Hpre.
      by rewrite Hsrc in Hpre. }
    split; [done|]. subst k.
    rewrite Htake, Hl1 in Hpre. injection Hpre as <- <-.
    assert (cj = cfg) as -> by (rewrite Hsplit, list_lookup_middle in Hk; congruence).
    destruct Hwhy as [[_ ?]|[[_ ?]|(e' & He' & -> & _)]]; [done | done | congruence].
Qed.

(** What a successful [initialize] leaves: the sources with their ids,
    and the loop that produced the provider. *)
Lemma initialize_ok w p p' :
  initialize w p = (p', None) →
  ∃ pf seen,
    init_loop w 0 (config p) (with_cache ∅ p, ∅) = (pf, seen, None) ∧
    cache p' = cache pf ∧ defaultID p' = defaultID pf ∧
    config p' = with_ids_from w 0 (config p).
Proof.
  unfold initialize. simpl.
  destruct (init_loop w 0 (config p) _) as [[pf seen] [err|]] eqn:Hloop; [done|].
  intros [= <-]. exists pf, seen. split_and!; [done..|]. simpl.
  rewrite (init_loop_config _ _ _ _ _ _ _ Hloop) by (simpl; lia). simpl.
  by rewrite drop_all, app_nil_r.
Qed.

(** C2, as amended: the cache is rebuilt in place, one locked write after
    the other.  During a reload that succeeds, a reader that comes after
    the cache was emptied and [k] sources were handled finds a part of
    the cache of the finished reload: the sources at positions below [k]
    have the entry they will keep, the sources from position [k] on have
    none (at [k = 0] the cache is empty).  No entry of the cache from
    before the reload is mixed in, but sources can be missing, and there
    is no single publishing step. *)
Theorem Reload_seen_by_reader w p p' k :
  Reload w p = (p', None) →
  k ≤ length (config p) →
  cache (during_reload w 0 p) = ∅ ∧
  cache (during_reload w k p) ⊆ cache p' ∧
  ∀ j c, config p' !! j = Some c →
    (j < k → is_Some (cache p' !! ID c) ∧
             cache (during_reload w k p) !! ID c = cache p' !! ID c) ∧
    (k ≤ j → cache (during_reload w k p) !! ID c = None).
Proof.
  intros Hre Hk. split; [done|].
  apply initialize_ok in Hre as (pf & seenf & Hloop & -> & _ & Hcfg).
  rewrite <- (take_drop k (config p)), init_loop_app in Hloop.
  destruct (init_loop w 0 (take k (config p)) _) as [[s seen] [err|]] eqn:Hpre;
    [done|].
  rewrite (during_reload_prefix _ _ _ _ _ _ Hpre).
  rewrite length_take_le in Hloop by done. simpl in Hloop.
  pose proof (init_loop_seen _ _ _ _ _ _ _ Hpre) as (Hseen & _ & _).
  pose proof (init_loop_cache _ _ _ _ _ _ _ Hpre) as [Hdom _].
  simpl in Hdom. rewrite dom_empty_L in Hdom.
  assert (dom (cache s) = seen) as Hds by (by rewrite Hdom, Hseen).
  pose proof (init_loop_cache _ _ _ _ _ _ _ Hloop) as [_ Hsub].
  specialize (Hsub (reflexive_eq _ _ Hds)).
  split; [done|]. intros j c Hj.
  rewrite Hcfg, with_ids_from_lookup in Hj.
  destruct (config p !! j) as [c0|] eqn:Hc0; [|done].
  injection Hj as <-. simpl. split.
  - intros Hlt.
    assert (take k (config p) !! j = Some c0) as Hin by (by rewrite lookup_take_lt).
    destruct (init_loop_loads _ _ _ _ _ _ _ Hpre (empty_subseteq _) _ _ Hin)
      as (b & _ & Hentry).
    simpl in Hentry. rewrite Hentry.
    rewrite (lookup_weaken _ _ _ _ Hentry Hsub). by split; [eexists|].
  - intros Hge. apply not_elem_of_dom. rewrite Hds.
    apply init_loop_seen in Hloop as (_ & _ & Hids).
    apply (Hids (id_at w j c0)).
    apply list_elem_of_lookup. exists (j - k).
    rewrite (ids_from_lookup w _ k (j - k) c0).
    + do 2 f_equal. lia.
    + rewrite lookup_drop. by replace (k + (j - k)) with j by lia.
Qed.

(** C9, as amended: with more than one source marked default, the
    validation that runs once when the process starts returns an error
    (the error about defaults when every source passes its own checks),
    and the provider is not built.  [initialize], which alone runs at a
    reload, does not count the defaults: when it succeeds, the default id
    is the id of the last source marked default. *)
Theorem multiple_default_rejected_at_start w t (configurations : list Configuration) :
  1 < count_default configurations →
  (∃ e, (validate w configurations).2 = Some e ∧
        start w t configurations = Err (inl e)) ∧
  (∀ c, validate_loop w 0 configurations (mkChecked 0 false false) = (c, None) →
        (validate w configurations).2 = Some MultipleDefault) ∧
  (∀ p p', config p = configurations → initialize w p = (p', None) →
           defaultID p' = last_default w 0 configurations (defaultID p)).
Proof.
  intros Hcount.
  destruct (validate_multiple_default w configurations Hcount) as [[e He] Hloop].
  split_and!.
  - exists e. split; [done|]. unfold start.
    destruct (validate w configurations) as [c o]. simpl in He. by subst o.
  - done.
  - intros p p' <- Hinit.
    apply initialize_ok in Hinit as (pf & seen & Hl & _ & -> & _).
    by apply init_loop_defaultID in Hl.
Qed.

(* ------------------------------------------------------------------- *)
(** ** The resolver on an index that was built                          *)
(* ------------------------------------------------------------------- *)

(** The default id is that of the last source marked default. *)
Lemma last_default_at w (l1 l2 : list Configuration) d i (x : string) :
  Default d = true →
  (∀ c, c ∈ l2 → Default c = false) →
  last_default w i (l1 ++ d :: l2) x = id_at w (i + length l1) d.
Proof.
  intros Hd Hl2. revert i x. induction l1 as [|c l1 IH]; intros i x; simpl.
  - rewrite Hd, Nat.add_0_r. generalize (id_at w i d) as y. generalize (S i) as n.
    induction l2 as [|c l2 IH2]; intros n y; simpl; [done|].
    rewrite (Hl2 c) by left. apply IH2. intros; apply Hl2; by right.
  - rewrite IH. f_equal. lia.
Qed.

(** With ids that are all different, looking a source up by its id finds
    that source. *)
Lemma find_id_with_ids w (todo : list Configuration) i n d :
  NoDup (ids_from w i todo) →
  todo !! n = Some d →
  find_id (id_at w (i + n) d) (with_ids_from w i todo)
  = Some (with_ID (id_at w (i + n) d) d).
Proof.
  revert i n. induction todo as [|c todo IH]; intros i n Hnd Hn; [done|].
  simpl in Hnd. apply NoDup_cons in Hnd as [Hc Hnd].
  destruct n as [|n]; simpl in *.
  - injection Hn as ->. by rewrite Nat.add_0_r, String.eqb_refl.
  - destruct (String.eqb (id_at w i c) (id_at w (i + S n) d)) eqn:Heq.
    + exfalso. apply String.eqb_eq in Heq. apply Hc. rewrite Heq.
      apply list_elem_of_lookup. exists n.
      rewrite (ids_from_lookup w _ (S i) n d Hn). do 2 f_equal. lia.
    + replace (i + S n) with (S i + n) by lia. by apply IH.
Qed.

Lemma matchConfiguration_no_score p md :
  (∀ x, x ∈ config p → score md x = 0) →
  matchConfiguration p md =
  if negb (String.eqb (defaultID p) "") then find_id (defaultID p) (config p) else None.
Proof.
  intros Hzero. unfold matchConfiguration.
  rewrite best_match_keep; [done|]. intros x Hx. rewrite (Hzero x Hx). lia.
Qed.

(** On an index built without error from sources of which the one at
    position [i] is the last marked default: the default id is the id of
    that source, it finds that source, and its bundle is in the cache. *)
Lemma initialize_default w p0 p i d :
  initialize w p0 = (p, None) →
  config p0 !! i = Some d →
  Default d = true →
  (∀ j c, i < j → config p0 !! j = Some c → Default c = false) →
  defaultID p = id_at w i d ∧ defaultID p ≠ "" ∧
  find_id (defaultID p) (config p) = Some (with_ID (id_at w i d) d) ∧
  is_Some (cache p !! id_at w i d).
Proof.
  intros Hinit Hi Hd Hlast.
  apply initialize_ok in Hinit as (pf & seen & Hloop & Hcache & Hdef & Hcfg).
  pose proof (init_loop_seen _ _ _ _ _ _ _ Hloop) as (_ & Hnd & Hids).
  assert (defaultID p = id_at w i d) as Hid.
  { rewrite Hdef, (init_loop_defaultID _ _ _ _ _ _ _ Hloop).
    rewrite <- (take_drop_middle _ _ _ Hi).
    rewrite last_default_at; [| done |].
    - rewrite length_take_le; [done|]. apply lookup_lt_Some in Hi. lia.
    - intros c [n Hn]%list_elem_of_lookup. rewrite lookup_drop in Hn.
      apply (Hlast (S i + n) c); [lia | done]. }
  split_and!.
  - done.
  - rewrite Hid. apply (Hids (id_at w i d)).
    apply list_elem_of_lookup. exists i. by rewrite (ids_from_lookup w _ 0 i d).
  - rewrite Hid, Hcfg. by apply (find_id_with_ids w (config p0) 0 i d).
  - destruct (init_loop_loads _ _ _ _ _ _ _ Hloop (empty_subseteq _) i d Hi)
      as (b & _ & Hb).
    rewrite Hcache. simpl in Hb. by rewrite Hb.
Qed.



(* ------------------------------------------------------------------- *)
(** ** More on the resolver                                             *)
(* ------------------------------------------------------------------- *)

Lemma find_id_found (id : string) (todo : list Configuration) c :
  find_id id todo = Some c → c ∈ todo ∧ ID c = id.
Proof.
  induction todo as [|a todo IH]; simpl; [done|].
  destruct (String.eqb (ID a) id) eqn:Heq.
  - intros [= <-]. apply String.eqb_eq in Heq. split; [left | done].
  - intros Hc. destruct (IH Hc). split; [by right | done].
Qed.

(** X1: the resolver never makes a source up: what [matchConfiguration]
    returns is one of the configured sources, and it either has a positive
    score or carries the default id. *)
Theorem matchConfiguration_is_configured p md c :
  matchConfiguration p md = Some c →
  c ∈ config p ∧ (0 < score md c ∨ (ID c = defaultID p ∧ defaultID p ≠ "")).
Proof.
  unfold matchConfiguration.
  destruct (best_match md (config p) None 0) as [b|] eqn:Hb.
  - intros [= <-]. destruct (best_match_found _ _ _ _ _ Hb) as [?|[Hin Hs]]; [done|].
    split; [done | by left].
  - destruct (String.eqb (defaultID p) "") eqn:Hd; [done|]. simpl.
    intros Hc. apply find_id_found in Hc as [Hin Hid].
    apply String.eqb_neq in Hd. split; [done | by right].
Qed.

(** X2: among sources with the same highest score, the one configured
    first wins: a source with a positive score that is above the score of
    every source before it and not below the score of any source after it
    is the one returned. *)
Theorem matchConfiguration_first_of_the_best p md (l1 l2 : list Configuration) c :
  config p = l1 ++ c :: l2 →
  0 < score md c →
  (∀ x, x ∈ l1 → score md x < score md c) →
  (∀ x, x ∈ l2 → score md x ≤ score md c) →
  matchConfiguration p md = Some c.
Proof.
  intros Hcfg Hpos H1 H2. unfold matchConfiguration. rewrite Hcfg.
  by rewrite best_match_first_top.
Qed.

Lemma score_le_size md cfg : score md cfg ≤ size md.
Proof.
  unfold score, score_of. rewrite <- length_map_to_list. apply length_filter.
Qed.

(** X3: a score is at most the number of pairs of the request, so a request
    without metadata scores zero everywhere and is answered through the
    default id alone: with the source that carries it, or with nothing when
    no default id is set. *)
Theorem matchConfiguration_without_metadata p :
  (∀ md cfg, score md cfg ≤ size md) ∧
  matchConfiguration p ∅ =
  (if String.eqb (defaultID p) "" then None else find_id (defaultID p) (config p)).
Proof.
  split; [apply score_le_size|].
  rewrite matchConfiguration_no_score.
  - by destruct (String.eqb (defaultID p) "").
  - intros x _. pose proof (score_le_size ∅ x) as Hle.
    rewrite map_size_empty in Hle. lia.
Qed.

Lemma filter_agree {A} (P Q : A → Prop) `{!∀ x, Decision (P x)} `{!∀ x, Decision (Q x)}
    (l : list A) :
  (∀ x, x ∈ l → P x ↔ Q x) → filter P l = filter Q l.
Proof.
  induction l as [|a l IH]; intros Hpq; [done|].
  rewrite !filter_cons.
  assert (P a ↔ Q a) as Ha by (apply Hpq; left).
  rewrite IH by (intros; apply Hpq; by right).
  destruct (decide (P a)), (decide (Q a)); tauto.
Qed.

(** X4: the score of a source looks at the keys of the request only: two
    sources that agree on those keys score the same, whatever else they
    declare, so declaring more keys than a request carries costs
    nothing. *)
Theorem score_reads_request_keys_only md (c1 c2 : Configuration) :
  (∀ k, is_Some (md !! k) → index (Metadata c1) k = index (Metadata c2) k) →
  score md c1 = score md c2.
Proof.
  intros Hagree. unfold score, score_of. f_equal.
  apply filter_agree. intros [k v] Hin. simpl.
  apply elem_of_map_to_list in Hin. by rewrite Hagree by (by eexists).
Qed.

(** X5: the expiry time of a cache entry is never read: [GetConfig] answers
    the same whatever the entries' [ExpiresAt] is. *)
Theorem GetConfig_ignores_expiry (t : Z) p md :
  GetConfig (expiring_at t p) md = GetConfig p md.
Proof.
  unfold GetConfig, expiring_at, matchConfiguration. simpl.
  destruct (match best_match md (config p) None 0 with
            | Some best => Some best
            | None => _ end) as [cfg|]; [|done].
  rewrite lookup_fmap. by destruct (cache p !! ID cfg).
Qed.

(* ------------------------------------------------------------------- *)
(** ** More on BuildCacheKey                                            *)
(* ------------------------------------------------------------------- *)

Lemma lower_ascii_idem (c : ascii) :
  Str.lower_ascii (Str.lower_ascii c) = Str.lower_ascii c.
Proof. by destruct c as [[] [] [] [] [] [] [] []]. Qed.

Lemma lower_ascii_equals (c : ascii) :
  Ascii.eqb (Str.lower_ascii c) "=" = Ascii.eqb c "=".
Proof. by destruct c as [[] [] [] [] [] [] [] []]. Qed.

Lemma ToLower_idem (s : string) : Str.ToLower (Str.ToLower s) = Str.ToLower s.
Proof. induction s as [|c s IH]; simpl; [done|]. by rewrite lower_ascii_idem, IH. Qed.

Lemma ToLower_app (s t : string) :
  Str.ToLower (s +:+ t) = Str.ToLower s +:+ Str.ToLower t.
Proof. induction s as [|c s IH]; simpl; [done|]. by rewrite IH. Qed.

Lemma ToLower_Join (elems : list string) :
  Str.ToLower (Str.Join elems "&") = Str.Join (map Str.ToLower elems) "&".
Proof.
  induction elems as [|x [|y rest] IH]; [done..|].
  change (Str.Join (x :: y :: rest) "&") with (x +:+ "&" +:+ Str.Join (y :: rest) "&").
  rewrite !ToLower_app, IH. done.
Qed.

Lemma contains_app (c : ascii) (s t : string) :
  Str.contains c (s +:+ t) = Str.contains c s || Str.contains c t.
Proof. induction s as [|d s IH]; simpl; [done|]. by rewrite IH, orb_assoc. Qed.

Lemma contains_ToLower (s : string) :
  Str.contains "=" (Str.ToLower s) = Str.contains "=" s.
Proof. induction s as [|d s IH]; simpl; [done|]. by rewrite lower_ascii_equals, IH. Qed.

Lemma Join_head (x : string) (rest : list string) (sep : string) :
  ∃ t, Str.Join (x :: rest) sep = x +:+ t.
Proof.
  destruct rest as [|y rest].
  - exists "". simpl. induction x as [|c x IH]; [done|].
    change (String c x +:+ "") with (String c (x +:+ "")). by f_equal.
  - by eexists.
Qed.

(** The key of a mapping that is not empty holds the sign [=]. *)
Lemma BuildCacheKey_contains_equals (ρ : Visit) (m : gmap string string) :
  fair ρ → m ≠ ∅ → Str.contains "=" (BuildCacheKey ρ m) = true.
Proof.
  intros Hρ Hm. unfold BuildCacheKey.
  rewrite decide_False by (by apply map_size_non_empty_iff).
  destruct (ρ m) as [|[k v] rest] eqn:Hv.
  { exfalso. apply Hm, map_to_list_empty_iff. symmetry. apply Permutation_nil_l.
    by rewrite <- (Hρ m), Hv. }
  simpl map. destruct (Join_head (k +:+ "=" +:+ v)
    (map (λ kv : string * string, kv.1 +:+ "=" +:+ kv.2) rest) "&") as [t ->].
  rewrite contains_ToLower, !contains_app. simpl. by rewrite orb_true_r.
Qed.

Lemma BuildCacheKey_not_empty_string (ρ : Visit) (m : gmap string string) :
  fair ρ → BuildCacheKey ρ m ≠ "".
Proof.
  intros Hρ. destruct (decide (m = ∅)) as [->|Hm]; [done|].
  pose proof (BuildCacheKey_contains_equals ρ m Hρ Hm) as Heq.
  intros Hk. rewrite Hk in Heq. by vm_compute in Heq.
Qed.

(** X6: the key "default" is that of the empty mapping and of no other:
    whatever a source with metadata declares, its id holds the sign [=],
    so it is neither "default" nor empty. *)
Theorem BuildCacheKey_default_iff_empty (ρ : Visit) (m : gmap string string) :
  fair ρ →
  (BuildCacheKey ρ m = "default" ↔ m = ∅) ∧ BuildCacheKey ρ m ≠ "".
Proof.
  intros Hρ. destruct (decide (m = ∅)) as [->|Hm].
  - by rewrite BuildCacheKey_empty.
  - split; [|by apply BuildCacheKey_not_empty_string].
    pose proof (BuildCacheKey_contains_equals ρ m Hρ Hm) as Heq.
    split; [|done]. intros Hk. rewrite Hk in Heq. by vm_compute in Heq.
Qed.

(** X7: with at most one entry the key does not depend on the order of the
    range: any two fair visits of the mapping give the same key. *)
Theorem BuildCacheKey_one_entry (ρ1 ρ2 : Visit) (m : gmap string string) :
  fair ρ1 → fair ρ2 → size m ≤ 1 →
  BuildCacheKey ρ1 m = BuildCacheKey ρ2 m.
Proof.
  intros H1 H2 Hsize. unfold BuildCacheKey.
  destruct (decide (size m = 0)); [done|].
  assert (ρ1 m ≡ₚ ρ2 m) as Hperm by (by rewrite (H1 m), (H2 m)).
  assert (length (ρ2 m) ≤ 1) as Hlen
    by (by rewrite (H2 m), length_map_to_list).
  destruct (ρ2 m) as [|x [|y rest]]; [| |simpl in Hlen; lia].
  - apply Permutation_nil_r in Hperm. by rewrite Hperm.
  - apply Permutation_singleton_r in Hperm. by rewrite Hperm.
Qed.

(** X8: ids are folded to lower case, pair by pair: the key is the join of
    the lower-cased pairs, it is its own lower case, and two mappings whose
    pairs differ in letter case only, visited in the same order, get the
    same key. *)
Theorem BuildCacheKey_folds_case (ρ1 ρ2 : Visit) (m1 m2 : gmap string string) :
  m1 ≠ ∅ → m2 ≠ ∅ →
  map (λ kv : string * string, (Str.ToLower kv.1, Str.ToLower kv.2)) (ρ1 m1)
  = map (λ kv : string * string, (Str.ToLower kv.1, Str.ToLower kv.2)) (ρ2 m2) →
  BuildCacheKey ρ1 m1 = BuildCacheKey ρ2 m2 ∧
  Str.ToLower (BuildCacheKey ρ1 m1) = BuildCacheKey ρ1 m1.
Proof.
  intros Hm1 Hm2 Hsame.
  assert (∀ (ρ : Visit) m, m ≠ ∅ →
    BuildCacheKey ρ m =
    Str.Join (map (λ kv : string * string, kv.1 +:+ "=" +:+ kv.2)
                (map (λ kv : string * string, (Str.ToLower kv.1, Str.ToLower kv.2))
                   (ρ m))) "&") as Hkey.
  { intros ρ m Hm. unfold BuildCacheKey.
    rewrite decide_False by (by apply map_size_non_empty_iff).
    rewrite ToLower_Join, !map_map. f_equal. apply map_ext. intros [k v]. simpl.
    by rewrite !ToLower_app. }
  split.
  - by rewrite !Hkey, Hsame.
  - unfold BuildCacheKey. rewrite decide_False by (by apply map_size_non_empty_iff).
    apply ToLower_idem.
Qed.

(** X9: the error "configuration id is required" cannot come out of
    [initialize]: an id is never empty. *)
Theorem initialize_never_lacks_an_id w p :
  (∀ i, fair (order w i)) →
  (initialize w p).2 ≠ Some ErrIDRequired.
Proof.
  intros Hfair. unfold initialize. simpl.
  destruct (init_loop w 0 (config p) _) as [[p' seen'] [err|]] eqn:Hloop; [|done].
  simpl. intros [= ->].
  destruct (init_loop_failed _ _ _ _ _ _ _ _ Hloop)
    as (l1 & cj & l2 & p1 & seen1 & _ & _ & Hsrc).
  apply init_source_err in Hsrc as (_ & _ & _ & [[_ Hid]|[[? _]|(e & _ & ? & _)]]);
    [|done..].
  by apply (BuildCacheKey_not_empty_string (order w (0 + length l1)) (Metadata cj)).
Qed.

(* ------------------------------------------------------------------- *)
(** ** More on initialize                                               *)
(* ------------------------------------------------------------------- *)

Lemma with_ids_from_ID w (todo : list Configuration) i :
  ID <$> with_ids_from w i todo = ids_from w i todo.
Proof.
  revert i. induction todo as [|c todo IH]; intros i; simpl; [done|]. by rewrite IH.
Qed.

Lemma ids_from_length w (todo : list Configuration) i :
  length (ids_from w i todo) = length todo.
Proof.
  revert i. induction todo as [|c todo IH]; intros i; simpl; [done|]. by rewrite IH.
Qed.

(** What a successful [initialize] leaves, in terms of the ids. *)
Lemma initialize_ids w p p' :
  initialize w p = (p', None) →
  ID <$> config p' = ids_from w 0 (config p) ∧
  NoDup (ids_from w 0 (config p)) ∧
  dom (cache p') = list_to_set (ids_from w 0 (config p)).
Proof.
  intros Hinit.
  apply initialize_ok in Hinit as (pf & seen & Hloop & Hcache & _ & Hcfg).
  pose proof (init_loop_seen _ _ _ _ _ _ _ Hloop) as (_ & Hnd & _).
  pose proof (init_loop_cache _ _ _ _ _ _ _ Hloop) as [Hdom _].
  simpl in Hdom. rewrite dom_empty_L, (right_id_L ∅ (∪)) in Hdom.
  split_and!; [by rewrite Hcfg, with_ids_from_ID | done | by rewrite Hcache].
Qed.

(** X10: after an [initialize] that succeeds the index is consistent: no
    two sources have the same id, the cache holds an entry for exactly the
    ids of the sources, so [GetStats] counts as many loaded
    configurations as there are sources, and [lastReload] is the time read
    at the end of the run. *)
Theorem initialize_index_consistent w p p' (t : Z) :
  initialize w p = (p', None) →
  NoDup (ID <$> config p') ∧
  dom (cache p') = list_to_set (ID <$> config p') ∧
  ConfigsLoaded (GetStats t p') = length (config p) ∧
  LastReload (GetStats t p') = now w (2 * length (config p)).
Proof.
  intros Hinit.
  destruct (initialize_ids w p p' Hinit) as (Hids & Hnd & Hdom).
  rewrite Hids. split_and!; [done | done | |].
  - simpl. rewrite <- size_dom, Hdom, size_list_to_set by done.
    apply ids_from_length.
  - revert Hinit. unfold initialize. simpl.
    destruct (init_loop w 0 (config p) _) as [[pf seen] [err|]] eqn:Hloop; [done|].
    intros [= <-]. simpl.
    rewrite (init_loop_config _ _ _ _ _ _ _ Hloop) by (simpl; lia). simpl.
    rewrite drop_all, app_nil_r.
    assert (length (with_ids_from w 0 (config p)) = length (config p)) as ->; [|done].
    by rewrite <- (length_fmap ID), with_ids_from_ID, ids_from_length.
Qed.

Lemma matchConfiguration_elem p md c :
  matchConfiguration p md = Some c → c ∈ config p.
Proof.
  unfold matchConfiguration.
  destruct (best_match md (config p) None 0) as [b|] eqn:Hb.
  - intros [= <-]. by destruct (best_match_found _ _ _ _ _ Hb) as [?|[Hin _]].
  - destruct (String.eqb (defaultID p) ""); [done|]. simpl.
    intros Hc. by apply find_id_found in Hc as [Hin _].
Qed.

(** X11: on an index that was built without error [GetConfig] never
    answers "not loaded": a request is either matched to no source, or
    given a configured source together with the bundle cached under that
    source's id. *)
Theorem GetConfig_on_built_index w p p' md :
  initialize w p = (p', None) →
  GetConfig p' md = Err ErrNoMatch ∨
  ∃ c e, c ∈ config p' ∧ cache p' !! ID c = Some e ∧
         GetConfig p' md = Ok (Bundle e, c).
Proof.
  intros Hinit. unfold GetConfig.
  destruct (matchConfiguration p' md) as [c|] eqn:Hm; [right | by left].
  pose proof (matchConfiguration_elem _ _ _ Hm) as Hin.
  destruct (initialize_ids w p p' Hinit) as (Hids & _ & Hdom).
  assert (ID c ∈ dom (cache p')) as Hc.
  { rewrite Hdom, <- Hids. apply elem_of_list_to_set, list_elem_of_fmap. by exists c. }
  apply elem_of_dom in Hc as [e He]. exists c, e. by rewrite He.
Qed.

(** The loop writes ids and nothing else into the sources. *)
Lemma init_loop_declared w (todo : list Configuration) i p (seen : gset string)
    p' seen' res :
  init_loop w i todo (p, seen) = (p', seen', res) →
  drop i (config p) = todo →
  declared <$> config p' = declared <$> config p.
Proof.
  revert i p seen. induction todo as [|cfg todo IH]; intros i p seen; simpl.
  - by intros [= <- <- <-].
  - intros Hloop Hdrop.
    assert (config p !! i = Some cfg) as Hi.
    { rewrite <- (Nat.add_0_r i), <- lookup_drop, Hdrop. done. }
    assert (∀ p1, config p1 = <[i := with_ID (id_at w i cfg) cfg]> (config p) →
                  declared <$> config p1 = declared <$> config p ∧
                  drop (S i) (config p1) = todo) as Hstep.
    { intros p1 ->. split.
      - rewrite list_fmap_insert. apply list_insert_id.
        by rewrite list_lookup_fmap, Hi.
      - rewrite drop_insert_lt by lia.
        apply (f_equal (drop 1)) in Hdrop. rewrite drop_drop in Hdrop.
        by replace (i + 1) with (S i) in Hdrop by lia. }
    destruct (init_source w i cfg (p, seen)) as [[p1 seen1] [e|]] eqn:Hsrc.
    + injection Hloop as <- <- <-. apply Hstep.
      revert Hsrc. unfold init_source, id_at.
      repeat case_match; by intros [= <- <- <-].
    + apply init_source_ok in Hsrc as (_ & _ & _ & b & _ & Hcfg & _).
      destruct (Hstep p1 Hcfg) as [Hd Hdr].
      rewrite (IH _ _ _ Hloop Hdr). done.
Qed.

(** X12: [initialize] rewrites the id of the sources it reaches and leaves
    everything else of the configuration as it was, whether it succeeds or
    fails: the directories, auth requirements, default marks and metadata
    of the sources, and their number and order, do not change. *)
Theorem initialize_keeps_sources w p :
  declared <$> config (initialize w p).1 = declared <$> config p ∧
  length (config (initialize w p).1) = length (config p).
Proof.
  assert (declared <$> config (initialize w p).1 = declared <$> config p) as Hd.
  { unfold initialize. simpl.
    destruct (init_loop w 0 (config p) _) as [[p' seen'] res] eqn:Hloop.
    apply init_loop_declared in Hloop; [|done].
    by destruct res. }
  split; [done|].
  apply (f_equal length) in Hd. by rewrite !length_fmap in Hd.
Qed.

(** X13: what the cache holds for a source after an [initialize] that
    succeeds: an entry whose ETag is the checksum written into the bundle,
    which is the checksum one gets by computing it again from the stored
    bundle; the bundle carries every pair of the source's metadata, over
    whatever the files said for that key; and the entry expires five
    minutes after the second reading of the clock for that source. *)
Theorem initialize_cache_entry w p p' n cfg :
  initialize w p = (p', None) →
  config p !! n = Some cfg →
  ∃ e, cache p' !! id_at w n cfg = Some e ∧
       ETag e = Checksum (Bundle e) ∧
       calculateChecksum (Bundle e) = Checksum (Bundle e) ∧
       (∀ k v, Metadata cfg !! k = Some v → BundleMetadata (Bundle e) !! k = Some v) ∧
       Timestamp (Bundle e) = now w (2 * n) ∧
       ExpiresAt e = (now w (2 * n + 1) + five_minutes)%Z.
Proof.
  intros Hinit Hn.
  apply initialize_ok in Hinit as (pf & seen & Hloop & Hcache & _ & _).
  destruct (init_loop_loads _ _ _ _ _ _ _ Hloop (empty_subseteq _) n cfg Hn)
    as (b & _ & He).
  simpl in He. exists (new_entry w n cfg b). rewrite Hcache.
  split_and!; try done.
  intros k v Hk. unfold new_entry. simpl.
  rewrite (assign_all_fair visit_listed) by (intros m; reflexivity).
  by apply lookup_union_Some_l.
Qed.

(* ------------------------------------------------------------------- *)
(** ** More on loadConfigFromDirectory                                  *)
(* ------------------------------------------------------------------- *)

(** The callback fails at the refused steps and at no other. *)
Lemma visit_refused path ev (b : ConfigBundle Route Middleware) :
  is_err (visit path ev b) = refused (path, ev).
Proof.
  unfold visit, refused, unusable. simpl.
  destruct ev as [e| |[data|e]]; try done.
  - destruct (recognized path); [|done]. simpl. by destruct (parse path data).
  - by destruct (recognized path).
Qed.

(** A step that is not refused merges what was parsed, if anything. *)
Lemma visit_accepted path ev (b b' : ConfigBundle Route Middleware) :
  visit path ev b = Ok b' →
  b' = match parsed (path, ev) with Some t => merge b t | None => b end.
Proof.
  unfold visit, parsed. simpl.
  destruct ev as [e| |[data|e]]; try (by intros [= <-]).
  - destruct (recognized path); simpl; [|by intros [= <-]].
    destruct (parse path data); [by intros [= <-] | done].
  - destruct (recognized path); simpl; [done | by intros [= <-]].
Qed.

Lemma run_walk_refused_iff (evs : list (string * event))
    (b : ConfigBundle Route Middleware) :
  is_err (run_walk evs b) = existsb refused evs.
Proof.
  revert b. induction evs as [|[path ev] evs IH]; intros b; [done|]. simpl.
  rewrite <- (visit_refused path ev b).
  destruct (visit path ev b); simpl; [apply IH | done].
Qed.

Lemma run_walk_accepted (evs : list (string * event))
    (b b' : ConfigBundle Route Middleware) :
  run_walk evs b = Ok b' →
  b' = fold_left merge (omap parsed evs) b.
Proof.
  revert b. induction evs as [|[path ev] evs IH]; intros b; simpl.
  - by intros [= <-].
  - destruct (visit path ev b) as [b1|e] eqn:Hv; [|done].
    intros Hrest. apply IH in Hrest. apply visit_accepted in Hv.
    destruct (parsed (path, ev)); simpl; by subst.
Qed.

Lemma fold_merge_fields (ts : list (ConfigBundle Route Middleware))
    (b : ConfigBundle Route Middleware) :
  let b' := fold_left merge ts b in
  Version b' = Version b ∧ Checksum b' = Checksum b ∧ Timestamp b' = Timestamp b ∧
  Routes b' = Routes b ++ concat (Routes <$> ts) ∧
  Middlewares b' = Middlewares b ++ concat (Middlewares <$> ts) ∧
  BundleMetadata b' = fold_left (λ acc t, BundleMetadata t ∪ acc) ts (BundleMetadata b).
Proof.
  revert b. induction ts as [|t ts IH]; intros b; simpl.
  - by rewrite !app_nil_r.
  - destruct (IH (merge b t)) as (-> & -> & -> & -> & -> & ->). simpl.
    rewrite !app_assoc.
    by rewrite (assign_all_fair visit_listed) by (intros m; reflexivity).
Qed.

(** X14: a load fails exactly when the walk meets a step the callback
    refuses: a path that cannot be examined or listed, or a file with a
    recognized extension that cannot be read or parsed.  Nothing else makes
    a load fail, and one such step is enough. *)
Theorem loadConfigFromDirectory_fails_iff w directory :
  is_err (loadConfigFromDirectory w directory) = true ↔
  ∃ pe, pe ∈ walk directory (fs w directory) ∧ refused pe = true.
Proof.
  unfold loadConfigFromDirectory. rewrite run_walk_refused_iff, existsb_exists.
  split; intros (pe & Hin & Hr); exists pe; split; try done; by apply list_elem_of_In.
Qed.

(** X15: a bundle that was loaded has the version "1.0", no checksum and
    the zero time stamp, whatever the files say in those fields; its
    routes and its middlewares are those of the parsed files, one file
    after the other in the order of the walk, with nothing taken out; for
    a metadata key that several files set, the file visited last wins. *)
Theorem loadConfigFromDirectory_merge w directory (b : ConfigBundle Route Middleware) :
  loadConfigFromDirectory w directory = Ok b →
  let files := omap parsed (walk directory (fs w directory)) in
  Version b = "1.0" ∧ Checksum b = "" ∧ Timestamp b = 0%Z ∧
  Routes b = concat (Routes <$> files) ∧
  Middlewares b = concat (Middlewares <$> files) ∧
  BundleMetadata b = fold_left (λ acc t, BundleMetadata t ∪ acc) files ∅.
Proof.
  unfold loadConfigFromDirectory. intros Hrun. apply run_walk_accepted in Hrun.
  simpl. rewrite Hrun.
  by destruct (fold_merge_fields (omap parsed (walk directory (fs w directory)))
                 empty_bundle) as (-> & -> & -> & -> & -> & ->).
Qed.

(* ------------------------------------------------------------------- *)
(** ** More on Config.validate                                          *)
(* ------------------------------------------------------------------- *)

Lemma validate_source_accepts w i cfg (c : Checked) :
  (validate_source w i cfg c).2 = None ↔ source_ok w cfg = true.
Proof.
  unfold validate_source, source_ok.
  destruct (String.eqb (Directory cfg) ""); simpl; [done|].
  destruct (not_exist w (Directory cfg)); simpl; [done|].
  destruct (Auth cfg ≫= BasicAuthOf) as [basic|]; [|done].
  by destruct (String.eqb (Username basic) "" || String.eqb (Password basic) "").
Qed.

Lemma validate_loop_accepts w (todo : list Configuration) i (c : Checked) :
  (validate_loop w i todo c).2 = None ↔ forallb (source_ok w) todo = true.
Proof.
  revert i c. induction todo as [|cfg todo IH]; intros i c; simpl; [done|].
  rewrite andb_true_iff, <- (validate_source_accepts w i cfg c).
  destruct (validate_source w i cfg c) as [c1 [e|]]; simpl.
  - split; [done | by intros [? _]].
  - rewrite IH. tauto.
Qed.

(** X16: [validate] accepts a list of sources exactly when it is not empty,
    every source has a directory name that is not empty and that exists,
    every basic-auth requirement has both a user name and a password, and
    at most one source is marked default. *)
Theorem validate_accepts_iff w (configurations : list Configuration) :
  (validate w configurations).2 = None ↔
  configurations ≠ [] ∧ forallb (source_ok w) configurations = true ∧
  count_default configurations ≤ 1.
Proof.
  unfold validate.
  destruct (decide (length configurations = 0)) as [Hlen|Hlen].
  { apply nil_length_inv in Hlen. subst. simpl. split; [done | by intros [? _]]. }
  assert (configurations ≠ []) as Hne by (by intros ->).
  rewrite <- (validate_loop_accepts w configurations 0 (mkChecked 0 false false)).
  destruct (validate_loop w 0 configurations _) as [c [e|]] eqn:Hloop; simpl.
  - split; [done | by intros (_ & ? & _)].
  - apply validate_loop_count in Hloop. simpl in Hloop. rewrite <- Hloop.
    destruct (decide (1 < defaultCount c)); simpl.
    + split; [done | intros (_ & _ & ?); lia].
    + split; [intros _; split_and!; [done | done | lia] | done].
Qed.

(** Whether a source asks for an API key, and for basic auth. *)
Lemma validate_source_flags w i cfg (c c' : Checked) :
  validate_source w i cfg c = (c', None) →
  hasApiKeyAuth c' =
    (match Auth cfg with Some a => negb (String.eqb (APIKey a) "") | None => false end
     || hasApiKeyAuth c) ∧
  hasBasicAuth c' = (bool_decide (is_Some (Auth cfg ≫= BasicAuthOf)) || hasBasicAuth c).
Proof.
  unfold validate_source.
  destruct (String.eqb (Directory cfg) ""); [done|].
  destruct (not_exist w (Directory cfg)); [done|].
  destruct (Auth cfg) as [a|]; simpl.
  - destruct (BasicAuthOf a) as [basic|]; simpl.
    + destruct (String.eqb (Username basic) "" || String.eqb (Password basic) "");
        [done|]. by intros [= <-].
    + by intros [= <-].
  - by intros [= <-].
Qed.

(** X17: when [validate] accepts, the two flags it leaves for the API
    documentation say what the sources ask for: the API-key flag is set
    exactly when some source has an API key that is not empty, the
    basic-auth flag exactly when some source has basic-auth credentials. *)
Theorem validate_flags w (configurations : list Configuration) (c : Checked) :
  validate w configurations = (c, None) →
  hasApiKeyAuth c =
    existsb (λ cfg, match Auth cfg with
                    | Some a => negb (String.eqb (APIKey a) "")
                    | None => false
                    end) configurations ∧
  hasBasicAuth c =
    existsb (λ cfg, bool_decide (is_Some (Auth cfg ≫= BasicAuthOf))) configurations.
Proof.
  unfold validate.
  destruct (decide (length configurations = 0)); [done|].
  destruct (validate_loop w 0 configurations _) as [c1 [e|]] eqn:Hloop; [done|].
  destruct (decide (1 < defaultCount c1)); [done|]. intros [= <-].
  assert (∀ (todo : list Configuration) i (c0 c2 : Checked),
    validate_loop w i todo c0 = (c2, None) →
    hasApiKeyAuth c2 =
      (existsb (λ cfg, match Auth cfg with
                       | Some a => negb (String.eqb (APIKey a) "")
                       | None => false
                       end) todo || hasApiKeyAuth c0) ∧
    hasBasicAuth c2 =
      (existsb (λ cfg, bool_decide (is_Some (Auth cfg ≫= BasicAuthOf))) todo
       || hasBasicAuth c0)) as Hinv.
  { clear. induction todo as [|cfg todo IH]; intros i c0 c2; simpl.
    - by intros [= <-].
    - destruct (validate_source w i cfg c0) as [c1 [e|]] eqn:Hsrc; [done|].
      intros Hloop. apply IH in Hloop as [-> ->].
      apply validate_source_flags in Hsrc as [-> ->].
      split; by rewrite orb_assoc, (orb_comm (existsb _ _)). }
  destruct (Hinv _ _ _ _ Hloop) as [-> ->]. simpl. by rewrite !orb_false_r.
Qed.

(* ------------------------------------------------------------------- *)
(** ** ExtractMetadata                                                  *)
(* ------------------------------------------------------------------- *)

Lemma HasPrefix_app (prefix s : string) : Str.HasPrefix (prefix +:+ s) prefix = true.
Proof.
  induction prefix as [|c prefix IH]; [by destruct s|].
  change (String c prefix +:+ s) with (String c (prefix +:+ s)). simpl.
  by rewrite Ascii.eqb_refl, IH.
Qed.

Lemma TrimPrefix_app (prefix s : string) : Str.TrimPrefix (prefix +:+ s) prefix = s.
Proof.
  unfold Str.TrimPrefix. rewrite HasPrefix_app.
  induction prefix as [|c prefix IH]; [reflexivity|].
  change (String c prefix +:+ s) with (String c (prefix +:+ s)). simpl. apply IH.
Qed.

Lemma fold_from_query (query : list (string * list string)) (acc : gmap string string) :
  fold_left from_query query acc = assign_all (omap query_pair query) acc.
Proof.
  revert acc. induction query as [|[k vs] query IH]; intros acc; [done|].
  simpl. rewrite IH. unfold from_query, query_pair. simpl. by destruct vs.
Qed.

Lemma fold_from_header (header : list (string * list string)) (acc : gmap string string) :
  fold_left from_header header acc = assign_all (omap header_pair header) acc.
Proof.
  revert acc. induction header as [|[k vs] header IH]; intros acc; [done|].
  simpl. rewrite IH. unfold from_header, header_pair. simpl.
  destruct (Str.HasPrefix k meta_prefix); [|done]. by destruct vs.
Qed.

Lemma query_pair_keys (query : list (string * list string)) :
  NoDup query.*1 → NoDup (omap query_pair query).*1.
Proof.
  induction query as [|[k vs] query IH]; simpl; [done|].
  intros [Hk Hnd]%NoDup_cons. unfold query_pair at 1. simpl.
  destruct vs as [|v vs]; simpl; [by apply IH|].
  apply NoDup_cons. split; [|by apply IH].
  intros Hin. apply Hk. apply list_elem_of_fmap in Hin as ([k1 v1] & Hk1 & Hin).
  simpl in Hk1. subst k1.
  apply list_elem_of_omap in Hin as ([k2 vs2] & Hin & Hq).
  unfold query_pair in Hq. simpl in Hq.
  destruct vs2 as [|v2 vs2]; [done|]. injection Hq as -> ->.
  apply list_elem_of_fmap. by exists (k, v1 :: vs2).
Qed.

(** X18: [ExtractMetadata] reads the first value of every query parameter
    under the parameter's own name, and the first value of every header
    named [X-Goma-Meta-] followed by K under the lower case of K; where a
    header and a query parameter give the same key, the header wins.
    (Two headers must not give the same key: the order of the range would
    decide between them.) *)
Theorem ExtractMetadata_headers_over_query (query header : list (string * list string)) :
  NoDup query.*1 →
  NoDup (omap header_pair header).*1 →
  ExtractMetadata query header
  = list_to_map (omap header_pair header) ∪ list_to_map (omap query_pair query) ∧
  (∀ K v vs, (meta_prefix +:+ K, v :: vs) ∈ header →
     ExtractMetadata query header !! Str.ToLower K = Some v) ∧
  (∀ k v vs, (k, v :: vs) ∈ query →
     k ∉ (omap header_pair header).*1 →
     ExtractMetadata query header !! k = Some v).
Proof.
  intros Hq Hh.
  assert (ExtractMetadata query header
          = list_to_map (omap header_pair header) ∪ list_to_map (omap query_pair query))
    as Heq.
  { unfold ExtractMetadata. rewrite fold_from_query, fold_from_header.
    rewrite !assign_all_union by (done || by apply query_pair_keys).
    by rewrite (right_id_L ∅ (∪)). }
  split; [done|]. rewrite Heq. split.
  - intros K v vs Hin. apply lookup_union_Some_l.
    apply elem_of_list_to_map_1; [done|].
    apply list_elem_of_omap. exists (meta_prefix +:+ K, v :: vs). split; [done|].
    unfold header_pair. simpl fst. simpl snd.
    by rewrite HasPrefix_app, TrimPrefix_app.
  - intros k v vs Hin Hfree. rewrite lookup_union_r.
    + apply elem_of_list_to_map_1; [by apply query_pair_keys|].
      apply list_elem_of_omap. by exists (k, v :: vs).
    + by apply not_elem_of_list_to_map_1.
Qed.

(** X19: headers that are not named [X-Goma-Meta-...] are never metadata:
    leaving them out of the request changes nothing, and a request without
    query parameters and without such headers has no metadata at all. *)
Theorem ExtractMetadata_other_headers (query header : list (string * list string)) :
  ExtractMetadata query header
  = ExtractMetadata query
      (filter (λ kv, Str.HasPrefix kv.1 meta_prefix = true) header) ∧
  (Forall (λ kv, Str.HasPrefix kv.1 meta_prefix = false) header →
   ExtractMetadata [] header = ∅).
Proof.
  assert (∀ query', ExtractMetadata query' header
          = ExtractMetadata query'
              (filter (λ kv, Str.HasPrefix kv.1 meta_prefix = true) header)) as Hfilter.
  { intros query'. unfold ExtractMetadata. generalize (fold_left from_query query' ∅).
    induction header as [|[k vs] header IH]; intros acc; [done|].
    rewrite filter_cons. simpl. unfold from_header at 2. simpl.
    destruct (Str.HasPrefix k meta_prefix) eqn:Hp.
    + rewrite decide_True by done. simpl. unfold from_header at 3. simpl.
      rewrite Hp. apply IH.
    + rewrite decide_False by done. apply IH. }
  split; [apply Hfilter|].
  intros Hall. rewrite Hfilter.
  replace (filter _ header) with (@nil (string * list string)); [done|].
  symmetry. clear Hfilter. induction Hall as [|[k vs] header Hk Hall IH]; [done|].
  rewrite filter_cons, decide_False; [apply IH|]. simpl in *. by rewrite Hk.
Qed.

(* ------------------------------------------------------------------- *)
(** ** More on Authenticate, and the handlers                           *)
(* ------------------------------------------------------------------- *)

(** X20: what [Authenticate] lets through.  A request passes exactly when
    the source has no auth requirement, or one without basic-auth
    credentials, or the source's API key is not empty and is the one in
    the request, or the user name is not empty and the request's basic
    credentials are the source's.  So an empty API key in the
    configuration never lets a request without the header pass. *)
Theorem Authenticate_passes_iff (r : Request) cfg :
  Authenticate r cfg = None ↔
  Auth cfg = None ∨
  ∃ a, Auth cfg = Some a ∧
       (BasicAuthOf a = None ∨
        ∃ basic, BasicAuthOf a = Some basic ∧
          ((APIKey a ≠ "" ∧ XAPIKey r = APIKey a) ∨
           (Username basic ≠ "" ∧
            BasicAuthHeader r = Some (Username basic, Password basic)))).
Proof.
  unfold Authenticate. destruct (Auth cfg) as [a|]; [|by split; [left|]].
  destruct (BasicAuthOf a) as [basic|] eqn:Hb.
  2:{ split; [|done]. intros _. right. exists a. split; [done | by left]. }
  set (K := negb (String.eqb (APIKey a) "") && String.eqb (XAPIKey r) (APIKey a)).
  set (U := negb (String.eqb (Username basic) "")
            && match BasicAuthHeader r with
               | Some (u, pw) =>
                   String.eqb u (Username basic) && String.eqb pw (Password basic)
               | None => false
               end).
  assert (K = true ↔ APIKey a ≠ "" ∧ XAPIKey r = APIKey a) as HK.
  { unfold K. by rewrite andb_true_iff, negb_true_iff, String.eqb_neq, String.eqb_eq. }
  assert (U = true ↔ Username basic ≠ "" ∧
                     BasicAuthHeader r = Some (Username basic, Password basic)) as HU.
  { unfold U. rewrite andb_true_iff, negb_true_iff, String.eqb_neq.
    destruct (BasicAuthHeader r) as [[u pw]|]; [|naive_solver].
    rewrite andb_true_iff, !String.eqb_eq. naive_solver. }
  split.
  - intros Hpass. right. exists a. split; [done|]. right. exists basic. split; [done|].
    destruct K; [left; by apply HK|]. destruct U; [right; by apply HU | done].
  - intros [?|(a' & Ha' & Hrest)]; [done|]. injection Ha' as <-.
    destruct Hrest as [?|(b' & Hb' & Hcase)]; [congruence|].
    assert (b' = basic) as -> by congruence.
    destruct Hcase as [HkK|HuU].
    + apply HK in HkK. by rewrite HkK.
    + apply HU in HuU. rewrite HuU. by destruct K.
Qed.

(** Every entry of the cache of an index that was built was made from the
    bundle loaded for one of the sources. *)
Lemma initialize_entries w p p' (id : string) e :
  initialize w p = (p', None) →
  cache p' !! id = Some e →
  ∃ n cfg b, config p !! n = Some cfg ∧ id = id_at w n cfg ∧ e = new_entry w n cfg b.
Proof.
  intros Hinit He.
  destruct (initialize_ids w p p' Hinit) as (_ & _ & Hdom).
  assert (id ∈ dom (cache p')) as Hin by (apply elem_of_dom; by eexists).
  rewrite Hdom in Hin. apply elem_of_list_to_set, list_elem_of_lookup in Hin as [n Hn].
  assert (∃ cfg, config p !! n = Some cfg) as [cfg Hcfg].
  { apply lookup_lt_is_Some. apply lookup_lt_Some in Hn.
    by rewrite ids_from_length in Hn. }
  rewrite (ids_from_lookup w _ 0 n cfg Hcfg) in Hn. injection Hn as <-.
  apply initialize_ok in Hinit as (pf & seen & Hloop & Hcache & _ & _).
  destruct (init_loop_loads _ _ _ _ _ _ _ Hloop (empty_subseteq _) n cfg Hcfg)
    as (b & _ & Hb).
  exists n, cfg, b. split_and!; [done | done |].
  rewrite Hcache in He. simpl in Hb. congruence.
Qed.

(** X21: the ETag round trip.  On an index that was built, the ETag sent
    with a bundle is the checksum of that bundle, computed from its
    content; a client that repeats the call with this value as
    [If-None-Match] is answered "not modified", with the same ETag and no
    body. *)
Theorem Service_GetConfig_etag_round_trip w p0 p (c : Call) etag b :
  initialize w p0 = (p, None) →
  Service_GetConfig p c = (etag, OK _ b) →
  etag = Some (calculateChecksum b) ∧
  Service_GetConfig p (with_IfNoneMatch (calculateChecksum b) c)
  = (Some (calculateChecksum b), NotModified _).
Proof.
  intros Hinit. unfold Service_GetConfig, configBundle. simpl.
  destruct (GetConfig p _) as [[b' cfg]|err] eqn:Hget; [|done].
  destruct (Authenticate (credentials c) cfg); [done|].
  destruct (String.eqb (IfNoneMatch c) (Checksum b')); [done|].
  intros [= <- <-].
  assert (calculateChecksum b' = Checksum b') as Hsum.
  { unfold GetConfig in Hget.
    destruct (matchConfiguration p _) as [cfg'|]; [|done].
    destruct (cache p !! ID cfg') as [e|] eqn:He; [|done].
    injection Hget as <- <-.
    by destruct (initialize_entries w p0 p _ e Hinit He) as (n & c0 & b0 & _ & _ & ->). }
  by rewrite Hsum, String.eqb_refl.
Qed.

(** X22: the handler of the configuration answers "not found" for every
    failure of the resolver, also for a bundle that is not loaded, and
    never "internal server error"; and a bundle goes out only to a call
    that [Authenticate] lets through for the source that was matched. *)
Theorem Service_GetConfig_gate p (c : Call) :
  (∀ e, (Service_GetConfig p c).2 ≠ InternalServerError _ e) ∧
  (∀ e, configBundle p c = Err e → Service_GetConfig p c = (None, NotFound _ e)) ∧
  (∀ b, (Service_GetConfig p c).2 = OK _ b →
        ∃ cfg, configBundle p c = Ok (b, cfg) ∧
               Authenticate (credentials c) cfg = None ∧
               (Service_GetConfig p c).1 = Some (Checksum b)).
Proof.
  unfold Service_GetConfig.
  destruct (configBundle p c) as [[b' cfg]|err]; [|by split_and!; [done | intros ? [= <-] | ]].
  destruct (Authenticate (credentials c) cfg) eqn:Hauth; [by split_and!|].
  destruct (String.eqb (IfNoneMatch c) (Checksum b')); simpl; [by split_and!|].
  split_and!; [done | done |]. intros b [= <-]. by exists cfg.
Qed.

(** X23: a source whose auth requirement has no basic-auth part is open at
    the HTTP layer: a call that resolves to it is answered with the bundle
    or with "not modified", whatever credentials it carries, even when the
    source has an API key. *)
Theorem Service_GetConfig_open_without_basic_auth p (c : Call) b cfg (r : Request) :
  configBundle p c = Ok (b, cfg) →
  Auth cfg ≫= BasicAuthOf = None →
  (Service_GetConfig p (with_credentials r c)).2 = OK _ b ∨
  (Service_GetConfig p (with_credentials r c)).2 = NotModified _.
Proof.
  intros Hget Hopen. unfold Service_GetConfig, configBundle in *. simpl.
  rewrite Hget.
  assert (Authenticate r cfg = None) as ->.
  { unfold Authenticate. destruct (Auth cfg) as [a|]; [|done]. simpl in Hopen.
    by rewrite Hopen. }
  destruct (String.eqb (IfNoneMatch c) (Checksum b)); [by right | by left].
Qed.

(** X24: what the reload handler does, case by case.  A call that does
    not resolve is answered "not found" and one that fails the
    authentication of the matched source "unauthorized", and both leave the
    provider as it is.  A call that resolves and authenticates runs the
    reload of every source, whichever source it matched: the provider
    afterwards is that of [Reload], the answer is the clock reading at the
    end of the reload when it succeeds and "internal server error" with
    the reload's error when it fails.  So the provider changes only for a
    call that resolves and authenticates. *)
Theorem Service_ReloadConfig_effect w p (c : Call) :
  (∀ e, configBundle p c = Err e →
        Service_ReloadConfig w p c = (p, NotFound _ e)) ∧
  (∀ b cfg e, configBundle p c = Ok (b, cfg) →
        Authenticate (credentials c) cfg = Some e →
        Service_ReloadConfig w p c = (p, Unauthorized _ e)) ∧
  (∀ b cfg, configBundle p c = Ok (b, cfg) →
        Authenticate (credentials c) cfg = None →
        (∀ p', Reload w p = (p', None) →
               Service_ReloadConfig w p c
               = (p', OK _ (now w (2 * length (config p))))) ∧
        (∀ p' e, Reload w p = (p', Some e) →
               Service_ReloadConfig w p c = (p', InternalServerError _ e))) ∧
  (∀ e, (Service_ReloadConfig w p c).2 = NotFound _ e ∨
        (Service_ReloadConfig w p c).2 = Unauthorized _ e →
        (Service_ReloadConfig w p c).1 = p) ∧
  (∀ t, (Service_ReloadConfig w p c).2 = OK _ t →
        Reload w p = ((Service_ReloadConfig w p c).1, None) ∧
        t = now w (2 * length (config p))) ∧
  (∀ e, (Service_ReloadConfig w p c).2 = InternalServerError _ e →
        Reload w p = ((Service_ReloadConfig w p c).1, Some e)).
Proof.
  assert (∀ p', Reload w p = (p', None) →
                lastReload p' = now w (2 * length (config p))) as Hstamp.
  { intros p'. unfold Reload, initialize. simpl.
    destruct (init_loop w 0 (config p) _) as [[pf seen] [err|]] eqn:Hloop; [done|].
    intros [= <-]. simpl.
    rewrite (init_loop_config _ _ _ _ _ _ _ Hloop) by (simpl; lia). simpl.
    rewrite drop_all, app_nil_r.
    assert (length (with_ids_from w 0 (config p)) = length (config p)) as ->; [|done].
    by rewrite <- (length_fmap ID), with_ids_from_ID, ids_from_length. }
  unfold Service_ReloadConfig.
  destruct (configBundle p c) as [[b cfg]|err].
  2:{ split_and!; intros; destruct_or?; by simplify_eq/=. }
  destruct (Authenticate (credentials c) cfg) as [e0|] eqn:Hauth.
  { split_and!; intros; destruct_or?; simplify_eq/=; first [done | congruence]. }
  destruct (Reload w p) as [p' [err|]] eqn:Hre; simpl.
  - split_and!; intros; destruct_or?; simplify_eq/=; repeat split; intros;
      simplify_eq/=; first [done | congruence].
  - pose proof (Hstamp p' eq_refl) as Ht.
    split_and!; intros; destruct_or?; simplify_eq/=; repeat split; intros;
      simplify_eq/=; first [done | congruence].
Qed.

(* ------------------------------------------------------------------- *)
(** ** The errors of initialize, GetMetadata, file extensions           *)
(* ------------------------------------------------------------------- *)

Lemma ids_from_lookup_inv w (todo : list Configuration) i n (id : string) :
  ids_from w i todo !! n = Some id →
  ∃ cfg, todo !! n = Some cfg ∧ id = id_at w (i + n) cfg.
Proof.
  intros Hn.
  assert (∃ cfg, todo !! n = Some cfg) as [cfg Hcfg].
  { apply lookup_lt_is_Some. apply lookup_lt_Some in Hn.
    by rewrite ids_from_length in Hn. }
  rewrite (ids_from_lookup w _ i n cfg Hcfg) in Hn. injection Hn as <-. by exists cfg.
Qed.

(** X25: the errors of [initialize] are real.  It fails with one of three
    errors only.  A duplicate-id error names an id that two sources at
    different positions both get; a load error names the id of a source
    whose directory fails to load, with the error of that load. *)
Theorem initialize_errors_are_real w p err :
  (initialize w p).2 = Some err →
  (err = ErrIDRequired ∨ (∃ id, err = ErrDuplicateID id) ∨
   (∃ id e, err = ErrLoadConfig id e)) ∧
  (∀ id, err = ErrDuplicateID id →
     ∃ i j ci cj, i < j ∧ config p !! i = Some ci ∧ config p !! j = Some cj ∧
                  id_at w i ci = id ∧ id_at w j cj = id) ∧
  (∀ id e, err = ErrLoadConfig id e →
     ∃ j cj, config p !! j = Some cj ∧ id_at w j cj = id ∧
             loadConfigFromDirectory w (Directory cj) = Err e).
Proof.
  unfold initialize. simpl.
  destruct (init_loop w 0 (config p) _) as [[p' seen'] [err'|]] eqn:Hloop; [|done].
  simpl. intros [= ->].
  destruct (init_loop_failed _ _ _ _ _ _ _ _ Hloop)
    as (l1 & cj & l2 & p1 & seen1 & Hsplit & Hl1 & Hsrc).
  simpl in Hsrc.
  assert (config p !! length l1 = Some cj) as Hj
    by (rewrite Hsplit; by apply list_lookup_middle).
  apply init_loop_seen in Hl1 as (Hseen & _ & _).
  rewrite (right_id_L ∅ (∪)) in Hseen.
  apply init_source_err in Hsrc as (_ & _ & _ & Hwhy).
  destruct Hwhy as [[-> _]|[[-> Hold]|(e & He & -> & _)]].
  - split_and!; [by left | done | done].
  - split_and!; [right; left; by eexists | | done].
    intros id [= <-]. rewrite Hseen in Hold.
    apply elem_of_list_to_set, list_elem_of_lookup in Hold as [i Hi].
    pose proof (lookup_lt_Some _ _ _ Hi) as Hlt. rewrite ids_from_length in Hlt.
    apply ids_from_lookup_inv in Hi as (ci & Hci & Hid). simpl in Hid.
    exists i, (length l1), ci, cj. split_and!; try done.
    rewrite Hsplit. by rewrite lookup_app_l.
  - split_and!; [right; right; by do 2 eexists | done |].
    intros id e' [= <- <-]. by exists (length l1), cj.
Qed.

Lemma init_source_metadata w i cfg p (seen : gset string) p' seen' :
  init_source w i cfg (p, seen) = (p', seen', None) →
  metadata p' = Metadata cfg ∪ metadata p.
Proof.
  unfold init_source.
  destruct (String.eqb _ ""); [done|].
  destruct (decide (_ ∈ seen)); [done|].
  destruct (loadConfigFromDirectory w (Directory cfg)) as [bundle|e]; [|done].
  intros [= <- <-]. simpl.
  by rewrite (assign_all_fair visit_listed) by (intros m; reflexivity).
Qed.

(** The loop collects the metadata of the sources it handles. *)
Lemma init_loop_metadata w (todo : list Configuration) i p (seen : gset string) p' seen' :
  init_loop w i todo (p, seen) = (p', seen', None) →
  metadata p' = fold_left (λ acc cfg, Metadata cfg ∪ acc) todo (metadata p).
Proof.
  revert i p seen. induction todo as [|cfg todo IH]; intros i p seen; simpl.
  - by intros [= <- <-].
  - destruct (init_source w i cfg (p, seen)) as [[p1 seen1] [e|]] eqn:Hsrc; [done|].
    intros Hloop. apply IH in Hloop. rewrite Hloop.
    by rewrite (init_source_metadata _ _ _ _ _ _ _ Hsrc).
Qed.

(** X26: what [GetMetadata] returns for a provider that was just built.
    When a source is marked default, it is the metadata of the bundle
    cached under the default id, the bundle of the last source marked
    default: the metadata of that source over the metadata of the files in
    its directory, so it holds every pair that source declares.  When no
    source is marked default, it is the metadata of all sources put
    together, a later source winning over an earlier one on a key they
    share. *)
Theorem GetMetadata_of_new_provider w (t : Z) (configurations : list Configuration) p :
  NewHTTPProvider w t configurations = Ok p →
  (∀ n d, configurations !! n = Some d → Default d = true →
     (∀ j c, n < j → configurations !! j = Some c → Default c = false) →
     (∃ e b, defaultID p = id_at w n d ∧
             cache p !! defaultID p = Some e ∧
             GetMetadata p = BundleMetadata (Bundle e) ∧
             loadConfigFromDirectory w (Directory d) = Ok b ∧
             GetMetadata p = Metadata d ∪ BundleMetadata b) ∧
     (∀ k v, Metadata d !! k = Some v → GetMetadata p !! k = Some v)) ∧
  ((∀ c, c ∈ configurations → Default c = false) →
     GetMetadata p = fold_left (λ acc cfg, Metadata cfg ∪ acc) configurations ∅).
Proof.
  unfold NewHTTPProvider.
  destruct (initialize w _) as [p' [err|]] eqn:Hinit; [done|]. intros [= ->].
  split.
  - intros n d Hn Hd Hlast.
    destruct (initialize_default w _ p n d Hinit Hn Hd Hlast) as (Hdef & _ & _ & _).
    pose proof Hinit as Hok.
    apply initialize_ok in Hok as (pf & seen & Hloop & Hcache & _ & _).
    destruct (init_loop_loads _ _ _ _ _ _ _ Hloop (empty_subseteq _) n d Hn)
      as (b & Hload & He).
    simpl in He.
    assert (GetMetadata p = Metadata d ∪ BundleMetadata b) as Hunion.
    { unfold GetMetadata. rewrite Hdef, Hcache, He. unfold new_entry. simpl.
      by rewrite (assign_all_fair visit_listed) by (intros m; reflexivity). }
    split.
    + exists (new_entry w n d b), b. split_and!; try done.
      * by rewrite Hdef, Hcache.
      * unfold GetMetadata. by rewrite Hdef, Hcache, He.
    + intros k v Hk. rewrite Hunion. by apply lookup_union_Some_l.
  - intros Hnone.
    revert Hinit. unfold initialize. simpl.
    destruct (init_loop w 0 configurations _) as [[pf seen] [err|]] eqn:Hloop; [done|].
    intros [= <-].
    pose proof (init_loop_defaultID _ _ _ _ _ _ _ Hloop) as Hdef. simpl in Hdef.
    assert (∀ (todo : list Configuration) i (x : string),
              (∀ c, c ∈ todo → Default c = false) → last_default w i todo x = x) as Hld.
    { clear. induction todo as [|c todo IH]; intros i x Hall; simpl; [done|].
      rewrite (Hall c) by left. apply IH. intros; apply Hall; by right. }
    rewrite Hld in Hdef by done.
    pose proof (init_loop_cache _ _ _ _ _ _ _ Hloop) as [Hdom _].
    pose proof (init_loop_seen _ _ _ _ _ _ _ Hloop) as (_ & _ & Hids).
    unfold GetMetadata. simpl. rewrite Hdef.
    assert (cache pf !! "" = None) as ->.
    { apply not_elem_of_dom. rewrite Hdom. simpl. rewrite dom_empty_L.
      intros [Hin|Hin]%elem_of_union; [|set_solver].
      apply elem_of_list_to_set, Hids in Hin. by destruct Hin. }
    by rewrite (init_loop_metadata _ _ _ _ _ _ _ Hloop).
Qed.

Lemma list_ascii_of_string_app (s t : string) :
  list_ascii_of_string (s +:+ t) = list_ascii_of_string s ++ list_ascii_of_string t.
Proof.
  induction s as [|c s IH]; [done|].
  change (String c s +:+ t) with (String c (s +:+ t)). simpl. by rewrite IH.
Qed.

Lemma ext_scan_stops (l rest suffix : list ascii) :
  Forall (λ c, Ascii.eqb c "/" = false) l →
  Str.ext_scan (l ++ "/"%char :: rest) suffix = Str.ext_scan l suffix.
Proof.
  intros Hl. revert suffix. induction Hl as [|c l Hc Hl IH]; intros suffix; [done|].
  simpl. rewrite Hc. destruct (Ascii.eqb c "."); [done | apply IH].
Qed.

Lemma contains_Forall (c : ascii) (s : string) :
  Str.contains c s = false →
  Forall (λ d, Ascii.eqb d c = false) (list_ascii_of_string s).
Proof.
  induction s as [|d s IH]; simpl; [constructor|].
  intros [Hd Hs]%orb_false_iff. constructor; [done | by apply IH].
Qed.

(** X27: whether a file is configuration is decided by its own name: the
    extension of [dir/name] is the extension of [name] (a name holds no
    separator), so dots in the names of the directories above play no
    part. *)
Theorem Ext_of_directory_entry (dir name : string) :
  Str.contains "/" name = false →
  Str.Ext (Str.PathJoin dir name) = Str.Ext name ∧
  recognized (Str.PathJoin dir name) = recognized name.
Proof.
  intros Hname.
  assert (Str.Ext (Str.PathJoin dir name) = Str.Ext name) as Hext.
  { unfold Str.Ext, Str.PathJoin. rewrite !list_ascii_of_string_app.
    change (list_ascii_of_string "/") with ["/"%char].
    rewrite !rev_app_distr. simpl. rewrite <- app_assoc. simpl.
    rewrite ext_scan_stops; [done|].
    apply Forall_forall. intros c Hin. apply list_elem_of_In, in_rev in Hin.
    pose proof (contains_Forall "/" name Hname) as Hall.
    rewrite Forall_forall in Hall. by apply Hall, list_elem_of_In. }
  split; [done|]. unfold recognized. by rewrite Hext.
Qed.

(* ------------------------------------------------------------------- *)
(** ** Two sources with the same id                                     *)
(* ------------------------------------------------------------------- *)

(** C6, as amended: building the index from a list in which two sources
    get the same id never succeeds.  [initialize] stops at the first
    source that is refused, which is the second of the two or a source
    before it, with every source before that one indexed, and returns the
    error of that source.  When it is the second of the two, and so
    whenever the sources before the second were all indexed, the error is
    the duplicate-id error for the shared id.  Otherwise it is the error
    of the earlier source: the load error of its directory or a
    duplicate-id error for its own id; the id-required error is left only
    for a range that does not visit every entry once. *)
Theorem initialize_same_id_rejected w p i j ci cj :
  i < j →
  config p !! i = Some ci →
  config p !! j = Some cj →
  id_at w i ci = id_at w j cj →
  (∃ err k ck,
     (initialize w p).2 = Some err ∧
     k ≤ j ∧ config p !! k = Some ck ∧
     (∃ s seen,
        init_loop w 0 (take k (config p)) (with_cache ∅ p, ∅) = (s, seen, None)) ∧
     (err = ErrIDRequired ∨
      (err = ErrDuplicateID (id_at w k ck) ∧
       ∃ n cn, n < k ∧ config p !! n = Some cn ∧ id_at w n cn = id_at w k ck) ∨
      (∃ e, loadConfigFromDirectory w (Directory ck) = Err e ∧
            err = ErrLoadConfig (id_at w k ck) e)) ∧
     (k = j → err = ErrDuplicateID (id_at w j cj)) ∧
     ((∀ n, fair (order w n)) → err ≠ ErrIDRequired)) ∧
  (∀ s seen, init_loop w 0 (take j (config p)) (with_cache ∅ p, ∅) = (s, seen, None) →
             (initialize w p).2 = Some (ErrDuplicateID (id_at w j cj))).
Proof.
  intros Hij Hi Hj Hid.
  assert (∀ pf seenf, init_loop w 0 (config p) (with_cache ∅ p, ∅) ≠ (pf, seenf, None))
    as Hfails.
  { intros pf seenf Hloop. apply init_loop_seen in Hloop as (_ & Hnd & _).
    pose proof (ids_from_lookup w _ 0 _ _ Hi) as Hi'.
    pose proof (ids_from_lookup w _ 0 _ _ Hj) as Hj'.
    simpl in Hi', Hj'. rewrite <- Hid in Hj'.
    pose proof (NoDup_lookup _ _ _ _ Hnd Hi' Hj'). lia. }
  assert (∃ pf seenf err, init_loop w 0 (config p) (with_cache ∅ p, ∅)
                          = (pf, seenf, Some err)) as (pf & seenf & err & Hloop).
  { destruct (init_loop w 0 (config p) _) as [[pf seenf] [err|]] eqn:Hloop.
    - by exists pf, seenf, err.
    - by destruct (Hfails pf seenf). }
  assert ((initialize w p).2 = Some err) as Herr.
  { unfold initialize. simpl. by rewrite Hloop. }
  destruct (init_loop_failed _ _ _ _ _ _ _ _ Hloop)
    as (l1 & ck & l2 & p1 & seen1 & Hsplit & Hl1 & Hsrc).
  simpl in Hsrc.
  assert (take (length l1) (config p) = l1) as Htake
    by (rewrite Hsplit; apply take_app_length).
  assert (config p !! length l1 = Some ck) as Hk
    by (rewrite Hsplit; by apply list_lookup_middle).
  pose proof (init_loop_seen _ _ _ _ _ _ _ Hl1) as (Hseen & Hnd & Hids).
  rewrite (right_id_L ∅ (∪)) in Hseen.
  assert (∀ n cn, n < length l1 → config p !! n = Some cn →
                  id_at w n cn ∈ ids_from w 0 l1) as Hbefore.
  { intros n cn Hn Hcn. apply list_elem_of_lookup. exists n.
    rewrite (ids_from_lookup w l1 0 n cn); [done|].
    by rewrite <- Hcn, Hsplit, lookup_app_l. }
  assert (length l1 ≤ j) as Hkj.
  { destruct (decide (length l1 ≤ j)) as [|Hgt]; [done|]. exfalso.
    assert (l1 !! i = Some ci) as Hi1 by (by rewrite <- Hi, Hsplit, lookup_app_l by lia).
    assert (l1 !! j = Some cj) as Hj1 by (by rewrite <- Hj, Hsplit, lookup_app_l by lia).
    pose proof (ids_from_lookup w _ 0 _ _ Hi1) as Hi'.
    pose proof (ids_from_lookup w _ 0 _ _ Hj1) as Hj'.
    simpl in Hi', Hj'. rewrite <- Hid in Hj'.
    pose proof (NoDup_lookup _ _ _ _ Hnd Hi' Hj'). lia. }
  pose proof (init_source_err _ _ _ _ _ _ _ _ Hsrc) as (_ & _ & _ & Hwhy).
  assert (length l1 = j → err = ErrDuplicateID (id_at w j cj)) as Hsecond.
  { intros Heq. rewrite Heq in Hk. assert (ck = cj) as -> by congruence.
    assert (id_at w j cj ∈ ids_from w 0 l1) as Hin
      by (rewrite <- Hid; apply Hbefore; [lia | done]).
    rewrite Heq in Hwhy.
    destruct Hwhy as [[_ Hempty]|[[-> _]|(e & _ & _ & Hnew)]]; [| done |].
    - by destruct (Hids _ Hin) as [_ ?].
    - exfalso. apply Hnew. by rewrite Hseen, elem_of_list_to_set. }
  split.
  - exists err, (length l1), ck. split_and!; try done.
    + exists p1, seen1. by rewrite Htake.
    + destruct Hwhy as [[-> _]|[[-> Hold]|(e & He & -> & _)]].
      * by left.
      * right; left. split; [done|].
        rewrite Hseen in Hold.
        apply elem_of_list_to_set, list_elem_of_lookup in Hold as [n Hn].
        pose proof (lookup_lt_Some _ _ _ Hn) as Hlt. rewrite ids_from_length in Hlt.
        apply ids_from_lookup_inv in Hn as (cn & Hcn & Hidn). simpl in Hidn.
        exists n, cn. split_and!; [done | | done].
        by rewrite Hsplit, lookup_app_l.
      * right; right. by exists e.
    + intros Hfair ->.
      destruct Hwhy as [[_ Hempty]|[[? _]|(e & _ & ? & _)]]; [|done..].
      by apply (BuildCacheKey_not_empty_string (order w (length l1)) (Metadata ck)).
  - intros s seen Hpre. rewrite Herr. f_equal. apply Hsecond.
    destruct (decide (length l1 = j)) as [|Hne]; [done|]. exfalso.
    assert (take j (config p) = l1 ++ ck :: take (j - S (length l1)) l2) as Hj'.
    { rewrite Hsplit, take_app_ge by lia.
      f_equal. by replace (j - length l1) with (S (j - S (length l1))) by lia. }
    rewrite Hj', init_loop_app, Hl1 in Hpre. simpl in Hpre.
    by rewrite Hsrc in Hpre.
Qed.

End Properties.

(* ===================================================================== *)
(** * The properties on the concrete inputs                               *)
(* ===================================================================== *)

Import Sample.
Local Open Scope nat_scope.
Local Open Scope list_scope.

Lemma visit_listed_fair : fair visit_listed.
Proof. intros m. reflexivity. Qed.

Lemma visit_reversed_fair : fair visit_reversed.
Proof. intros m. unfold visit_reversed. symmetry. apply Permutation_rev. Qed.

(** C4: [BuildCacheKey] does not sort: for the metadata {env:prod,
    region:eu} the key is "env=prod&region=eu" when the range visits env
    first and "region=eu&env=prod" when it visits region first, so two
    visits of the same non-empty mapping give two different keys. *)
Theorem BuildCacheKey_depends_on_order :
  fair visit_listed ∧ fair visit_reversed ∧
  BuildCacheKey visit_listed two_keys = "env=prod&region=eu" ∧
  BuildCacheKey visit_reversed two_keys = "region=eu&env=prod" ∧
  BuildCacheKey visit_listed two_keys ≠ BuildCacheKey visit_reversed two_keys.
Proof.
  split_and!; [apply visit_listed_fair | apply visit_reversed_fair | done | done |].
  by vm_compute.
Qed.

(** The same sorting that is missing lets two sources with the same
    metadata both into the index, under two ids. *)
Example same_metadata_both_indexed :
  Metadata P1 = Metadata P2 ∧
  (∀ i, fair (order world_mixed i)) ∧
  (initialize world_mixed (mkHTTPProvider [P1; P2] ∅ "" 0 0 ∅)).2 = None ∧
  map ID (config (initialize world_mixed (mkHTTPProvider [P1; P2] ∅ "" 0 0 ∅)).1)
  = ["env=prod&region=eu"; "region=eu&env=prod"].
Proof.
  split_and!; [done | | by vm_compute | by vm_compute].
  intros i. simpl. case_decide; [apply visit_listed_fair | apply visit_reversed_fair].
Qed.

(** Against C1 as stated: the index serves A, B and the default D; a
    malformed fragment then appears under the directory of B and a reload
    is asked for.  The reload returns the load error, and the index is not
    what it was: only the entry of A is left in the cache, and the requests
    for B and for the default, which were served, get "not loaded". *)
Lemma Reload_failure_loses_index :
  (Reload world_later index0).2
  = Some (ErrLoadConfig "env=staging" (ParseJSONFailed "/staging/routes.json")) ∧
  dom (cache index0) = {[ "env=prod"; "env=staging"; "default" ]} ∧
  dom (cache (Reload world_later index0).1) = {[ "env=prod" ]} ∧
  cache (Reload world_later index0).1 ≠ cache index0 ∧
  is_err (GetConfig index0 {[ "env" := "staging" ]}) = false ∧
  GetConfig (Reload world_later index0).1 {[ "env" := "staging" ]}
  = Err (ErrNotLoaded "env=staging") ∧
  is_err (GetConfig index0 {[ "env" := "qa" ]}) = false ∧
  GetConfig (Reload world_later index0).1 {[ "env" := "qa" ]}
  = Err (ErrNotLoaded "default").
Proof.
  split_and!; try (vm_compute; reflexivity).
  intros Heq. apply (f_equal (λ m, is_Some (m !! "env=staging"))) in Heq.
  assert (is_Some (cache index0 !! "env=staging")) as Hold
    by (vm_compute; eexists; reflexivity).
  rewrite <- Heq in Hold. revert Hold. vm_compute. by intros [c Hc].
Qed.

(** What C1 as amended says, at the same reload. *)
Lemma Reload_load_error_witness :
  config index0 !! 1 = Some (with_ID "env=staging" B) ∧
  loadConfigFromDirectory world_later "/staging"
  = Err (ParseJSONFailed "/staging/routes.json") ∧
  ∃ p' err j cj,
    Reload world_later index0 = (p', Some err) ∧
    j ≤ 1 ∧ config index0 !! j = Some cj ∧
    lastReload p' = lastReload index0 ∧
    cache p' = cache (during_reload world_later j index0) ∧
    dom (cache p') = list_to_set (ids_from world_later 0 (take j (config index0))).
Proof.
  assert (config index0 !! 1 = Some (with_ID "env=staging" B)) as H1 by (by vm_compute).
  assert (loadConfigFromDirectory world_later (Directory (with_ID "env=staging" B))
          = Err (ParseJSONFailed "/staging/routes.json")) as H2 by (by vm_compute).
  split; [exact H1|]. split; [exact H2|].
  destruct (Reload_load_error world_later index0 1 _ _ H1 H2)
    as (p' & err & j & cj & Hre & Hj & Hcj & Hlast & Hcache & Hdom & _).
  exists p', err, j, cj. by split_and!.
Defined.

(** Against C2 as stated: while the index of A, B and D is reloaded from
    the unchanged disk, a reader that comes after the first source was
    handled finds a cache with the entry of A alone.  It is neither the
    cache from before the reload nor the one after it, and the request for
    B, served before and after, gets "not loaded". *)
Lemma reader_finds_partial_cache :
  (Reload world index0).2 = None ∧
  dom (cache index0) = {[ "env=prod"; "env=staging"; "default" ]} ∧
  dom (cache index1) = {[ "env=prod"; "env=staging"; "default" ]} ∧
  dom (cache (during_reload world 1 index0)) = {[ "env=prod" ]} ∧
  cache (during_reload world 1 index0) ≠ cache index0 ∧
  cache (during_reload world 1 index0) ≠ cache index1 ∧
  is_err (GetConfig index0 {[ "env" := "staging" ]}) = false ∧
  is_err (GetConfig index1 {[ "env" := "staging" ]}) = false ∧
  GetConfig (during_reload world 1 index0) {[ "env" := "staging" ]}
  = Err (ErrNotLoaded "env=staging").
Proof.
  assert (cache (during_reload world 1 index0) !! "env=staging" = None) as Hmid
    by (vm_compute; reflexivity).
  split_and!; try (vm_compute; reflexivity).
  - intros Heq. rewrite Heq in Hmid. revert Hmid. vm_compute. discriminate.
  - intros Heq. rewrite Heq in Hmid. revert Hmid. vm_compute. discriminate.
Qed.

(** What C2 as amended says, at the same reload. *)
Lemma Reload_seen_by_reader_witness :
  Reload world index0 = (index1, None) ∧
  1 ≤ length (config index0) ∧
  cache (during_reload world 1 index0) ⊆ cache index1 ∧
  ∀ j c, config index1 !! j = Some c →
    (j < 1 → is_Some (cache index1 !! ID c) ∧
             cache (during_reload world 1 index0) !! ID c = cache index1 !! ID c) ∧
    (1 ≤ j → cache (during_reload world 1 index0) !! ID c = None).
Proof.
  assert (Reload world index0 = (index1, None)) as H1 by (by vm_compute).
  assert (1 ≤ length (config index0)) as H2 by (vm_compute; lia).
  split; [exact H1|]. split; [exact H2|].
  exact (proj2 (Reload_seen_by_reader world index0 index1 1 H1 H2)).
Defined.

(** C3 at a request without credentials. *)
Lemma Authenticate_api_key_without_basic_auth_witness :
  Auth A_key = Some key_only ∧ BasicAuthOf key_only = None ∧ APIKey key_only ≠ "" ∧
  Authenticate anonymous A_key = None.
Proof.
  split; [reflexivity|]. split; [reflexivity|].
  assert (APIKey key_only ≠ "") as Hkey by (vm_compute; discriminate).
  split; [exact Hkey|].
  exact (Authenticate_api_key_without_basic_auth anonymous A_key key_only
           eq_refl eq_refl Hkey).
Defined.


(** Against C6 as stated: two sources with the same metadata {env:prod},
    the first in a directory with a malformed fragment.  The index is not
    built, but the error is the load error of the first source, not a
    duplicate-id error. *)
Lemma same_metadata_load_error_first :
  Metadata A_broken = Metadata A ∧
  NewHTTPProvider world 0 [A_broken; A]
  = Err (ErrInitialize (ErrLoadConfig "env=prod" (ParseJSONFailed "/broken/b.JSON"))) ∧
  (initialize world (mkHTTPProvider [A_broken; A] ∅ "" 0 0 ∅)).2
  ≠ Some (ErrDuplicateID "env=prod").
Proof.
  split_and!; by vm_compute.
Qed.

(** C6 as amended, at two sources with the id "env=prod" in good
    directories. *)
Lemma initialize_same_id_rejected_witness :
  0 < 1 ∧
  id_at world 0 A = id_at world 1 A_again ∧
  (initialize world (mkHTTPProvider [A; A_again] ∅ "" 0 0 ∅)).2
  = Some (ErrDuplicateID "env=prod").
Proof.
  assert (id_at world 0 A = id_at world 1 A_again) as Hid by (by vm_compute).
  split; [lia|]. split; [exact Hid|].
  pose proof (initialize_same_id_rejected world
                (mkHTTPProvider [A; A_again] ∅ "" 0 0 ∅) 0 1 A A_again
                ltac:(lia) eq_refl eq_refl Hid) as [_ Hdup].
  rewrite (Hdup (init_loop world 0 [A] (mkHTTPProvider [A; A_again] ∅ "" 0 0 ∅, ∅)).1.1
                (init_loop world 0 [A] (mkHTTPProvider [A; A_again] ∅ "" 0 0 ∅, ∅)).1.2).
  - vm_compute; reflexivity.
  - vm_compute; reflexivity.
Defined.

(** C7 at two bundles that differ in checksum and time stamp. *)
Lemma calculateChecksum_content_only_witness :
  Checksum bundle1 ≠ Checksum bundle2 ∧ Timestamp bundle1 ≠ Timestamp bundle2 ∧
  calculateChecksum bundle1 = calculateChecksum bundle2.
Proof.
  split; [by vm_compute|]. split; [by vm_compute|].
  exact (calculateChecksum_content_only bundle1 bundle2 eq_refl eq_refl eq_refl
           (λ k, eq_refl)).
Defined.

(** C8 at the directory [/broken]: the fragment [b.JSON] is refused. *)
Lemma loadConfigFromDirectory_all_or_nothing_witness :
  ("/broken/b.JSON", Regular (Ok "!{")) ∈ walk "/broken" (fs world "/broken") ∧
  recognized "/broken/b.JSON" = true ∧
  unusable "/broken/b.JSON" (Ok "!{") = true ∧
  loadConfigFromDirectory world "/broken" = Err (ParseJSONFailed "/broken/b.JSON") ∧
  recognized "/base/README.md" = false ∧
  is_err (loadConfigFromDirectory world "/base") = false.
Proof.
  assert (("/broken/b.JSON", Regular (Ok "!{")) ∈ walk "/broken" (fs world "/broken"))
    as Hin by (vm_compute; do 2 right; left).
  assert (unusable "/broken/b.JSON" (Ok "!{") = true) as Hbad by reflexivity.
  split; [exact Hin|]. split; [reflexivity|]. split; [exact Hbad|].
  destruct (loadConfigFromDirectory_all_or_nothing world "/broken" "/broken/b.JSON"
              (Ok "!{") Hin eq_refl Hbad) as [[e He] _].
  split; [|split; reflexivity].
  rewrite He. revert He. vm_compute. by intros [= <-].
Defined.

(** Against C9 as stated: [initialize], which is all that a reload runs,
    builds the index from two sources marked default; the last one gives
    the default id. *)
Lemma initialize_accepts_two_defaults :
  count_default [A_default; D] = 2 ∧
  (initialize world (mkHTTPProvider [A_default; D] ∅ "" 0 0 ∅)).2 = None ∧
  defaultID (initialize world (mkHTTPProvider [A_default; D] ∅ "" 0 0 ∅)).1 = "default" ∧
  (Reload world (initialize world (mkHTTPProvider [A_default; D] ∅ "" 0 0 ∅)).1).2 = None.
Proof.
  split_and!; by vm_compute.
Qed.

(** C9 as amended, at the same two sources. *)
Lemma multiple_default_rejected_at_start_witness :
  1 < count_default [A_default; D] ∧
  (validate world [A_default; D]).2 = Some MultipleDefault ∧
  start (libraries := Sample.libraries) world 0 [A_default; D] = Err (inl MultipleDefault).
Proof.
  assert (1 < count_default [A_default; D]) as Hcount by (vm_compute; lia).
  split; [exact Hcount|].
  destruct (multiple_default_rejected_at_start (libraries := Sample.libraries)
              world 0%Z [A_default; D] Hcount) as [(e & He & Hstart) _].
  rewrite Hstart, He. revert He. vm_compute. by intros [= <-].
Defined.

(** C10 at the request {zone:""} and the source A, which has no key zone. *)
Lemma empty_value_matches_absent_key_witness :
  ({[ "zone" := "" ]} : gmap string string) !! "zone" = Some "" ∧
  Metadata A !! "zone" = None ∧
  1 ≤ score {[ "zone" := "" ]} A ∧
  matchConfiguration index0 {[ "zone" := "" ]} = Some (with_ID "env=prod" A).
Proof.
  split; [reflexivity|]. split; [reflexivity|].
  pose proof (empty_value_matches_absent_key (Route := string) (Middleware := string)
                {[ "zone" := "" ]} A "zone" eq_refl eq_refl) as [Hs _].
  split; [exact Hs | by vm_compute].
Defined.

(* ===================================================================== *)
(** * The further properties on the concrete inputs                       *)
(* ===================================================================== *)

(** A decidable statement about concrete values, settled by computing. *)
Ltac by_computing :=
  match goal with
  | |- ?P => apply (bool_decide_eq_true_1 P); vm_compute; reflexivity
  end.

Lemma start0_initialize : initialize world start0 = (index0, None).
Proof. vm_compute; reflexivity. Qed.

Lemma world_fair : ∀ i, fair (order world i).
Proof. intros i. apply visit_listed_fair. Qed.

(** X1 at the request {env:prod}. *)
Lemma matchConfiguration_is_configured_witness :
  matchConfiguration index0 {[ "env" := "prod" ]} = Some (with_ID "env=prod" A) ∧
  with_ID "env=prod" A ∈ config index0.
Proof.
  assert (matchConfiguration index0 {[ "env" := "prod" ]} = Some (with_ID "env=prod" A))
    as Hm by (vm_compute; reflexivity).
  split; [exact Hm|].
  exact (proj1 (matchConfiguration_is_configured index0 _ _ Hm)).
Defined.

(** X2 at the request {zone:""}, which scores 1 against each of A, B and D. *)
Lemma matchConfiguration_first_of_the_best_witness :
  score {[ "zone" := "" ]} (with_ID "env=staging" B)
  = score {[ "zone" := "" ]} (with_ID "env=prod" A) ∧
  matchConfiguration index0 {[ "zone" := "" ]} = Some (with_ID "env=prod" A).
Proof.
  split; [vm_compute; reflexivity|].
  apply (matchConfiguration_first_of_the_best index0 {[ "zone" := "" ]} []
           [with_ID "env=staging" B; with_ID "default" D]).
  - vm_compute; reflexivity.
  - vm_compute; lia.
  - intros x Hx. exfalso. exact (proj1 (elem_of_nil x) Hx).
  - intros x Hx.
    apply elem_of_cons in Hx as [->|Hx]; [vm_compute; lia|].
    apply elem_of_cons in Hx as [->|Hx]; [vm_compute; lia|].
    exfalso. exact (proj1 (elem_of_nil x) Hx).
Defined.

(** X4 at A{env:prod} and a source that declares a region as well. *)
Lemma score_reads_request_keys_only_witness :
  Metadata A ≠ Metadata P1 ∧
  score {[ "env" := "prod" ]} A = score {[ "env" := "prod" ]} P1.
Proof.
  split.
  - intros Heq. apply (f_equal (λ m, m !! "region")) in Heq.
    revert Heq. vm_compute. discriminate.
  - apply score_reads_request_keys_only.
    intros k [v Hk]. apply lookup_singleton_Some in Hk as [<- _].
    vm_compute; reflexivity.
Defined.

(** X6 at the mapping {env:prod, region:eu}. *)
Lemma BuildCacheKey_default_iff_empty_witness :
  fair visit_listed ∧ BuildCacheKey visit_listed two_keys ≠ "".
Proof.
  split; [exact visit_listed_fair|].
  exact (proj2 (BuildCacheKey_default_iff_empty visit_listed two_keys visit_listed_fair)).
Defined.

(** X7 at the mapping {env:prod}, visited in the two orders. *)
Lemma BuildCacheKey_one_entry_witness :
  size ({[ "env" := "prod" ]} : gmap string string) ≤ 1 ∧
  BuildCacheKey visit_listed {[ "env" := "prod" ]}
  = BuildCacheKey visit_reversed {[ "env" := "prod" ]}.
Proof.
  assert (size ({[ "env" := "prod" ]} : gmap string string) ≤ 1) as Hs
    by (vm_compute; lia).
  split; [exact Hs|].
  exact (BuildCacheKey_one_entry visit_listed visit_reversed _
           visit_listed_fair visit_reversed_fair Hs).
Defined.

(** X8 at {Env:PROD} and {env:prod}. *)
Lemma BuildCacheKey_folds_case_witness :
  ({[ "Env" := "PROD" ]} : gmap string string) ≠ {[ "env" := "prod" ]} ∧
  BuildCacheKey visit_listed {[ "Env" := "PROD" ]}
  = BuildCacheKey visit_listed {[ "env" := "prod" ]}.
Proof.
  split.
  - intros Heq. apply (f_equal (λ m, m !! "env")) in Heq.
    revert Heq. vm_compute. discriminate.
  - refine (proj1 (BuildCacheKey_folds_case visit_listed visit_listed
                     {[ "Env" := "PROD" ]} {[ "env" := "prod" ]} _ _ _)).
    + apply map_non_empty_singleton.
    + apply map_non_empty_singleton.
    + vm_compute; reflexivity.
Defined.

(** X9 at the sources A, B and D. *)
Lemma initialize_never_lacks_an_id_witness :
  (∀ i, fair (order world i)) ∧ (initialize world start0).2 ≠ Some ErrIDRequired.
Proof.
  split; [exact world_fair|].
  exact (initialize_never_lacks_an_id world start0 world_fair).
Defined.

(** X10 at the sources A, B and D. *)
Lemma initialize_index_consistent_witness :
  initialize world start0 = (index0, None) ∧
  NoDup (ID <$> config index0) ∧
  ConfigsLoaded (GetStats 0 index0) = length (config start0).
Proof.
  split; [exact start0_initialize|].
  destruct (initialize_index_consistent world start0 index0 0%Z start0_initialize)
    as (Hnd & _ & Hcount & _).
  split; [exact Hnd | exact Hcount].
Defined.

(** X11 at the request {env:qa}. *)
Lemma GetConfig_on_built_index_witness :
  initialize world start0 = (index0, None) ∧
  (GetConfig index0 {[ "env" := "qa" ]} = Err ErrNoMatch ∨
   ∃ c e, c ∈ config index0 ∧ cache index0 !! ID c = Some e ∧
          GetConfig index0 {[ "env" := "qa" ]} = Ok (Bundle e, c)).
Proof.
  split; [exact start0_initialize|].
  exact (GetConfig_on_built_index world start0 index0 _ start0_initialize).
Defined.

(** X13 at the source A. *)
Lemma initialize_cache_entry_witness :
  initialize world start0 = (index0, None) ∧
  config start0 !! 0 = Some A ∧
  ∃ e, cache index0 !! id_at world 0 A = Some e ∧
       ETag e = Checksum (Bundle e) ∧
       calculateChecksum (Bundle e) = Checksum (Bundle e) ∧
       (∀ k v, Metadata A !! k = Some v → BundleMetadata (Bundle e) !! k = Some v) ∧
       Timestamp (Bundle e) = now world (2 * 0) ∧
       ExpiresAt e = (now world (2 * 0 + 1) + five_minutes)%Z.
Proof.
  split; [exact start0_initialize|]. split; [reflexivity|].
  exact (initialize_cache_entry world start0 index0 0 A start0_initialize eq_refl).
Defined.

(** X15 at the directory [/base]. *)
Lemma loadConfigFromDirectory_merge_witness :
  loadConfigFromDirectory world "/base"
  = Ok (mkConfigBundle "1.0" ["base-route"] [] ∅ "" 0) ∧
  Routes (mkConfigBundle "1.0" ["base-route"] ([] : list string) ∅ "" 0)
  = concat (Routes <$> omap parsed (walk "/base" (fs world "/base"))).
Proof.
  assert (loadConfigFromDirectory world "/base"
          = Ok (mkConfigBundle "1.0" ["base-route"] [] ∅ "" 0)) as Hload
    by (vm_compute; reflexivity).
  split; [exact Hload|].
  destruct (loadConfigFromDirectory_merge world "/base" _ Hload)
    as (_ & _ & _ & Hr & _).
  exact Hr.
Defined.

(** X17 at a source with an API key and the default source. *)
Lemma validate_flags_witness :
  validate world [A_key; D] = (mkChecked 1 true false, None) ∧
  hasApiKeyAuth (mkChecked 1 true false) =
    existsb (λ cfg, match Auth cfg with
                    | Some a => negb (String.eqb (APIKey a) "")
                    | None => false
                    end) [A_key; D].
Proof.
  assert (validate world [A_key; D] = (mkChecked 1 true false, None)) as Hv
    by (vm_compute; reflexivity).
  split; [exact Hv|].
  exact (proj1 (validate_flags world [A_key; D] _ Hv)).
Defined.

(** X18 at a request with the query [env=qa&zone=a&zone=b] and the header
    [X-Goma-Meta-Env: prod]. *)
Lemma ExtractMetadata_headers_over_query_witness :
  NoDup query0.*1 ∧ NoDup (omap header_pair header0).*1 ∧
  ExtractMetadata query0 header0 !! Str.ToLower "Env" = Some "prod" ∧
  ExtractMetadata query0 header0 !! "zone" = Some "a".
Proof.
  assert (NoDup query0.*1) as Hq by by_computing.
  assert (NoDup (omap header_pair header0).*1) as Hh
    by by_computing.
  destruct (ExtractMetadata_headers_over_query query0 header0 Hq Hh) as (_ & Hhead & Hquery).
  split; [exact Hq|]. split; [exact Hh|]. split.
  - apply (Hhead "Env" "prod" []). by_computing.
  - apply (Hquery "zone" "a" ["b"]).
    + by_computing.
    + by_computing.
Defined.

(** X21 at a call for {env:prod}. *)
Lemma Service_GetConfig_etag_round_trip_witness :
  initialize world start0 = (index0, None) ∧
  Service_GetConfig index0 call0 = (Some (Checksum bundleA), OK _ bundleA) ∧
  Service_GetConfig index0 (with_IfNoneMatch (calculateChecksum bundleA) call0)
  = (Some (calculateChecksum bundleA), NotModified _).
Proof.
  assert (Service_GetConfig index0 call0 = (Some (Checksum bundleA), OK _ bundleA))
    as Hcall by (vm_compute; reflexivity).
  split; [exact start0_initialize|]. split; [exact Hcall|].
  exact (proj2 (Service_GetConfig_etag_round_trip world start0 index0 call0 _ _
                  start0_initialize Hcall)).
Defined.

(** X23 at a source with an API key only and a call without credentials. *)
Lemma Service_GetConfig_open_without_basic_auth_witness :
  configBundle index_key call0 = Ok (bundleK, with_ID "env=prod" A_key) ∧
  Auth (with_ID "env=prod" A_key) ≫= BasicAuthOf = None ∧
  ((Service_GetConfig index_key (with_credentials anonymous call0)).2 = OK _ bundleK ∨
   (Service_GetConfig index_key (with_credentials anonymous call0)).2 = NotModified _).
Proof.
  assert (configBundle index_key call0 = Ok (bundleK, with_ID "env=prod" A_key))
    as Hget by (vm_compute; reflexivity).
  split; [exact Hget|]. split; [reflexivity|].
  exact (Service_GetConfig_open_without_basic_auth index_key call0 _ _ anonymous
           Hget eq_refl).
Defined.

(** X25 at two sources with the id "env=prod". *)
Lemma initialize_errors_are_real_witness :
  (initialize world (mkHTTPProvider [A; A_again] ∅ "" 0 0 ∅)).2
  = Some (ErrDuplicateID "env=prod") ∧
  ∃ i j ci cj, i < j ∧ [A; A_again] !! i = Some ci ∧ [A; A_again] !! j = Some cj ∧
               id_at world i ci = "env=prod" ∧ id_at world j cj = "env=prod".
Proof.
  assert ((initialize world (mkHTTPProvider [A; A_again] ∅ "" 0 0 ∅)).2
          = Some (ErrDuplicateID "env=prod")) as Herr by (vm_compute; reflexivity).
  split; [exact Herr|].
  destruct (initialize_errors_are_real world _ _ Herr) as (_ & Hdup & _).
  exact (Hdup "env=prod" eq_refl).
Defined.

(** X24 at a call for {env:prod} on the index of A, B and D: the call
    resolves to A, which asks for no credentials, and the reload runs. *)
Lemma Service_ReloadConfig_effect_witness :
  configBundle index0 call0 = Ok (bundleA, with_ID "env=prod" A) ∧
  Authenticate (credentials call0) (with_ID "env=prod" A) = None ∧
  Reload world index0 = (index1, None) ∧
  Service_ReloadConfig world index0 call0
  = (index1, OK _ (now world (2 * length (config index0)))).
Proof.
  assert (configBundle index0 call0 = Ok (bundleA, with_ID "env=prod" A)) as Hget
    by (vm_compute; reflexivity).
  assert (Authenticate (credentials call0) (with_ID "env=prod" A) = None) as Hauth
    by reflexivity.
  assert (Reload world index0 = (index1, None)) as Hre by (vm_compute; reflexivity).
  split; [exact Hget|]. split; [exact Hauth|]. split; [exact Hre|].
  destruct (Service_ReloadConfig_effect world index0 call0) as (_ & _ & Hrun & _).
  exact (proj1 (Hrun _ _ Hget Hauth) index1 Hre).
Defined.

(** X26 at a provider whose default source declares {env:prod}. *)
Lemma GetMetadata_of_new_provider_witness :
  NewHTTPProvider world 0 [A_default; B] = Ok index_default ∧
  (∃ e b, defaultID index_default = id_at world 0 A_default ∧
          cache index_default !! defaultID index_default = Some e ∧
          GetMetadata index_default = BundleMetadata (Bundle e) ∧
          loadConfigFromDirectory world (Directory A_default) = Ok b ∧
          GetMetadata index_default = Metadata A_default ∪ BundleMetadata b) ∧
  GetMetadata index_default !! "env" = Some "prod".
Proof.
  assert (NewHTTPProvider world 0 [A_default; B] = Ok index_default) as Hnew
    by (vm_compute; reflexivity).
  split; [exact Hnew|].
  destruct (GetMetadata_of_new_provider world 0%Z [A_default; B] index_default Hnew)
    as [Hdef _].
  assert (∀ j c, 0 < j → [A_default; B] !! j = Some c → Default c = false) as Hlast.
  { intros j c Hj Hc. destruct j as [|[|j]]; [lia | | discriminate Hc].
    injection Hc as <-. reflexivity. }
  destruct (Hdef 0 A_default eq_refl eq_refl Hlast) as [Hbundle Hpairs].
  split; [exact Hbundle|].
  apply Hpairs. reflexivity.
Defined.

(** X27 at a file in a directory whose name ends in [.yaml]. *)
Lemma Ext_of_directory_entry_witness :
  Str.contains "/" "README.md" = false ∧
  Str.Ext (Str.PathJoin "/etc/conf.yaml" "README.md") = Str.Ext "README.md" ∧
  recognized (Str.PathJoin "/etc/conf.yaml" "README.md") = false.
Proof.
  split; [reflexivity|].
  destruct (Ext_of_directory_entry "/etc/conf.yaml" "README.md" eq_refl) as [Hext Hrec].
  split; [exact Hext|]. rewrite Hrec. reflexivity.
Defined.
